(** * pyop: the OpenID Connect provider core ([src/pyop/provider.py])

    A shallow embedding of [provider.py] and the properties of its
    natural-language specification.

    Conventions of the embedding.
    - Python exceptions are values of [exn]; code that can raise returns
      [result A].  Code that talks to the collaborators held by the provider
      (the authorization state, the clock) runs in [M W A], a state and
      exception monad over the collaborators' state [W]: a raised exception
      keeps the state changes made before it, as in Python.
    - Messages of the [oic] library with a schema (authentication request,
      claims request, client metadata, provider configuration) are records
      whose optional members are [option] fields: [x['k']] is [getitem] and
      raises [KeyError] on [None], ['k' in x] is [is_Some], [x.get('k')] is
      the field itself.  Open dictionaries (requested claims, user claims, the
      ID Token payload, responses) are [gmap string _].
    - What [provider.py] imports from other modules ([oic], [jwkest],
      [urllib], the authorization state, the user-info source) is a
      parameter, declared in the classes [Library], [Userinfo],
      [AuthorizationState] and [Clock], and for the token endpoint in
      [TokenLibrary] and [RefreshState]. *)

From stdpp Require Import gmap strings list fin_maps.
From Stdlib Require Import ZArith.

Set Warnings "-register-all".
Local Open Scope string_scope.
Local Open Scope Z_scope.

(** ** JSON values: claim metadata, claim values and payload members *)

(** Numbers are integers.  Equality is structural, and the order of the
    members of an object does not matter, as for Python's [==] on what
    [json.loads] returns; Python's [True == 1] is not part of the model. *)

Inductive json : Type :=
| JNull
| JBool (b : bool)
| JNum (z : Z)
| JStr (s : string)
| JArr (l : list json)
| JObj (d : gmap string json).

#[global] Instance json_eq_dec : EqDecision json.
Proof.
  refine (fix go (x y : json) {struct x} : Decision (x = y) :=
    let _ : EqDecision json := @go in
    match x, y with
    | JNull, JNull => left _
    | JBool a, JBool b => cast_if (decide (a = b))
    | JNum a, JNum b => cast_if (decide (a = b))
    | JStr a, JStr b => cast_if (decide (a = b))
    | JArr a, JArr b => cast_if (decide (a = b))
    | JObj a, JObj b => cast_if (decide (a = b))
    | _, _ => right _
    end); congruence.
Defined.

(** Python truth value of a JSON value ([None], [False], [0], the empty
    string, list and dict are false). *)
Definition truthy (v : json) : bool :=
  match v with
  | JNull => false
  | JBool b => b
  | JNum z => negb (z =? 0)
  | JStr s => negb (String.eqb s "")
  | JArr l => negb (bool_decide (l = []))
  | JObj d => negb (bool_decide (d = ∅))
  end.

(** Truth value of a string, and of the result of [.get] on a string
    member ([None] when absent). *)
Definition truthy_str (s : string) : bool := negb (String.eqb s "").

Definition truthy_get (o : option string) : bool :=
  match o with
  | Some s => truthy_str s
  | None => false
  end.

(** [a or b] *)
Definition py_or (a b : json) : json := if truthy a then a else b.

(** [d.get(k)] on an open dictionary: Python's [None] is [JNull]. *)
Definition dict_get (d : gmap string json) (k : string) : json :=
  default JNull (d !! k).

(** A Python [str] or [None] as a JSON value. *)
Definition json_of_str (o : option string) : json :=
  match o with
  | Some s => JStr s
  | None => JNull
  end.

(** ** Messages with a schema *)

(** [oic.oic.message.ClaimsRequest]: the [claims] request parameter. *)
Record ClaimsRequest := {
  id_token : option (gmap string json);
  userinfo : option (gmap string json)
}.

(** [oic.oic.message.AuthorizationRequest], the members [provider.py] reads. *)
Record AuthorizationRequest := {
  response_type : option (list string);
  client_id : option string;
  redirect_uri : option string;
  scope : option (list string);
  state : option string;
  nonce : option string;
  claims : option ClaimsRequest
}.

(** Client metadata, one entry of [Provider.clients]. *)
Record ClientMetadata := {
  redirect_uris : option (list string);
  response_types : option (list (list string));
  subject_type : option string;
  id_token_signed_response_alg : option string
}.

(** [Provider.configuration_information]. *)
Record Configuration := {
  issuer : option string;
  subject_types_supported : option (list string);
  id_token_signing_alg_values_supported : option (list string);
  scopes_supported : option (list string)
}.

(** [pyop.access_token.AccessToken]. *)
Record AccessToken := {
  value : string;
  type : string;
  expires_in : Z
}.

(** A compact JWS as [IdToken.to_jwt(keys, alg)] produces it: the payload is
    carried in the clear next to the algorithm and the signing keys. *)
Record JWS := {
  jws_payload : gmap string json;
  jws_keys : list string;
  jws_alg : string
}.

(** Members of an authorization or token response. *)
Inductive member :=
| MStr (s : string)
| MInt (z : Z)
| MJws (j : JWS).

(** The result of [AuthorizationState.introspect_access_token]. *)
Record Introspection := {
  active : bool;
  introspection_scope : option string;
  introspection_sub : option string
}.

(** A member that [IdToken(..)] stores: the message leaves out the members
    whose value is [None] or the empty string. *)
Definition stored (member : string * json) : Prop :=
  member.2 ≠ JNull ∧ member.2 ≠ JStr "".

#[global] Instance stored_dec (member : string * json)
    : Decision (stored member).
Proof. unfold stored. apply _. Defined.

(** The member [k], with the value [o] if it has one, as the message keeps
    it. *)
Definition stored_member (k : string) (o : option json) : option json :=
  v ← o; guard (stored (k, v));; Some v.

(** ** Exceptions *)

(** class InvalidAuthenticationRequest(ValueError) *)
Record InvalidAuthenticationRequest := {
  message : string;
  request : AuthorizationRequest;
  oauth_error : option string
}.

Inductive exn :=
| KeyError (key : string)
| IndexError
| TypeError (msg : string)
| ValueError (msg : string)
| MissingRequiredValue (msg : string)
| MissingRequiredAttribute (msg : string)
| Raise_InvalidAuthenticationRequest (e : InvalidAuthenticationRequest)
| AuthorizationError (msg : string)
| InvalidTokenRequest (msg : string) (oauth_error : string)
| InvalidUserinfoRequest (msg : string)
| External (name : string).

Inductive result (A : Type) :=
| Ok (a : A)
| Err (e : exn).
Arguments Ok {A} a.
Arguments Err {A} e.

#[global] Instance result_ret : MRet result := λ A a, Ok a.
#[global] Instance result_bind : MBind result := λ A B f m,
  match m with
  | Ok a => f a
  | Err e => Err e
  end.

(** [x['k']] on a message: [KeyError] when the member is absent. *)
Definition getitem {A} (k : string) (o : option A) : result A :=
  match o with
  | Some a => Ok a
  | None => Err (KeyError k)
  end.

(** [l[0]] *)
Definition first {A} (l : list A) : result A :=
  match l with
  | a :: _ => Ok a
  | [] => Err IndexError
  end.

(** ** The state and exception monad of the endpoints *)

Definition M (W A : Type) : Type := W → result A * W.

#[global] Instance M_ret {W} : MRet (M W) := λ A a w, (Ok a, w).
#[global] Instance M_bind {W} : MBind (M W) := λ A B f m w,
  match m w with
  | (Ok a, w') => f a w'
  | (Err e, w') => (Err e, w')
  end.

(** Pure code inside an endpoint. *)
Definition lift {W A} (r : result A) : M W A := λ w, (r, w).

(** A call to a collaborator: it answers or raises an exception of its own,
    which no code of [provider.py] catches. *)
Definition call {W A} (c : W → (string + A) * W) : M W A := λ w,
  match c w with
  | (inr a, w') => (Ok a, w')
  | (inl name, w') => (Err (External name), w')
  end.

(** ** Collaborators and libraries *)

(** The outcome of a schema check, [Message.verify()]. *)
Inductive verified :=
| Verified
| MissingValue (msg : string)
| MissingAttribute (msg : string)
| VerifyRaised (name : string).

(** Functions of [oic], [jwkest], [urllib] and [pyop.access_token] that
    [provider.py] calls. *)
Class Library := {
  (** AuthorizationRequest().deserialize(request_body) *)
  AuthorizationRequest_deserialize : string → string + AuthorizationRequest;
  (** authentication_request.verify() *)
  AuthorizationRequest_verify : AuthorizationRequest → verified;
  (** AccessTokenRequest().from_dict(request).verify() *)
  AccessTokenRequest_verify : gmap string string → verified;
  (** oic.oic.scope2claims *)
  scope2claims : list string → gmap string json;
  (** ErrorResponse(error=.., error_message=..).request(location, fragment_enc) *)
  ErrorResponse_request : gmap string string → string → bool → string;
  (** jws.left_hash(msg.encode('utf-8'), hash_alg): [None] for a hash
      algorithm that it does not know *)
  left_hash : string → string → option string;
  (** urlparse(uri).netloc *)
  netloc : string → string;
  (** str.format of a requested claim value *)
  format_json : json → string;
  (** extract_bearer_token_from_http_request(request, http_headers) *)
  extract_bearer_token_from_http_request :
    option string → option (gmap string string) → string + string;
  (** IdToken(iss=.., .., **args): the exception that the message raises for
      the members [args], if it raises one (a value that does not fit the
      schema of the message) *)
  IdToken_error : gmap string json → option string;
  (** id_token.to_jwt(keys, alg): the exception that the signing raises, if
      it raises one (no key of [keys] is suitable for [alg]) *)
  to_jwt_error : gmap string json → list string → string → option string
}.

(** [pyop.userinfo.Userinfo], the read-only interface for user info. *)
Class Userinfo := {
  get_claims_for : string → gmap string json → gmap string json
}.

(** [pyop.authz_state.AuthorizationState], over its state [W]. *)
Class AuthorizationState (W : Type) := {
  create_authorization_code :
    AuthorizationRequest → string → W → (string + string) * W;
  create_access_token :
    AuthorizationRequest → string → W → (string + AccessToken) * W;
  create_refresh_token : string → W → (string + string) * W;
  exchange_code_for_token : string → W → (string + AccessToken) * W;
  get_authorization_request_for_code :
    string → W → (string + AuthorizationRequest) * W;
  get_subject_identifier_for_code : string → W → (string + string) * W;
  get_user_id_for_subject_identifier : string → W → (string + string) * W;
  get_authorization_request_for_access_token :
    string → W → (string + AuthorizationRequest) * W;
  introspect_access_token : string → W → (string + Introspection) * W;
  get_subject_identifier :
    string → string → string → W → (string + string) * W
}.

(** [time.time()]; a reading is a whole number of clock ticks. *)
Class Clock (W : Type) := {
  time_time : W → Z * W
}.

(** ** The provider *)

(** [Provider]: the members that are data.  The authorization state and the
    user-info source it holds are the instances of [AuthorizationState] and
    [Userinfo]. *)
Record Provider := {
  signing_key : string;
  configuration_information : Configuration;
  clients : gmap string ClientMetadata;
  id_token_lifetime : Z
}.

(** [Provider.__init__]: the defaults of the configuration and of the ID
    Token lifetime ([id_token_lifetime=3600]). *)
Definition Provider_init (signing_key : string)
    (configuration_information : Configuration)
    (clients : gmap string ClientMetadata)
    (id_token_lifetime : option Z) : Provider :=
  let c := configuration_information in
  {| signing_key := signing_key;
     configuration_information :=
       {| issuer := issuer c;
          subject_types_supported :=
            Some (default ["pairwise"] (subject_types_supported c));
          id_token_signing_alg_values_supported :=
            Some (default ["RS256"] (id_token_signing_alg_values_supported c));
          scopes_supported := Some (default ["openid"] (scopes_supported c)) |};
     clients := clients;
     id_token_lifetime := default 3600 id_token_lifetime |}.

(** [Provider.provider_configuration]: a deep copy of the configuration. *)
Definition provider_configuration (self : Provider) : Configuration :=
  configuration_information self.

Section provider.
Context `{!Library, !Userinfo}.

(** ** Encoding of the response, and error redirects *)

Definition should_fragment_encode
    (authentication_request : AuthorizationRequest) : result bool :=
  rt ← getitem "response_type" (response_type authentication_request);
  if bool_decide (rt = ["code"]) then
    (* Authorization Code Flow -> query encode *)
    Ok false
  else Ok true.

(** [InvalidAuthenticationRequest.to_error_url] *)
Definition to_error_url (self : InvalidAuthenticationRequest)
    : result (option string) :=
  let redirect_uri := redirect_uri (request self) in
  if truthy_get redirect_uri && truthy_get (oauth_error self) then
    let error_resp : gmap string string :=
      {[ "error" := default "" (oauth_error self);
         "error_message" := message self ]} in
    fragment_enc ← should_fragment_encode (request self);
    Ok (Some (ErrorResponse_request error_resp (default "" redirect_uri)
                fragment_enc))
  else Ok None.

(** ** The validators of an authentication request *)

Definition invalid_authentication_request (message : string)
    (parsed_request : AuthorizationRequest) (oauth_error : option string)
    : exn :=
  Raise_InvalidAuthenticationRequest
    {| message := message; request := parsed_request;
       oauth_error := oauth_error |}.

Definition _authorization_request_verify
    (authentication_request : AuthorizationRequest) : result unit :=
  match AuthorizationRequest_verify authentication_request with
  | Verified => Ok tt
  | MissingValue msg | MissingAttribute msg =>
      Err (invalid_authentication_request msg authentication_request
             (Some "invalid_request"))
  | VerifyRaised name => Err (External name)
  end.

Definition _client_id_is_known (provider : Provider)
    (authentication_request : AuthorizationRequest) : result unit :=
  cid ← getitem "client_id" (client_id authentication_request);
  if bool_decide (is_Some (clients provider !! cid)) then Ok tt
  else
    Err (invalid_authentication_request
           ("Unknown client_id '" +:+ cid +:+ "'")
           authentication_request (Some "unauthorized_client")).

(** [provider.clients[authentication_request['client_id']][member]], the
    expression guarded by [try ... except KeyError]. *)
Definition registered {A} (provider : Provider)
    (authentication_request : AuthorizationRequest)
    (name : string) (member : ClientMetadata → option A) : result A :=
  cid ← getitem "client_id" (client_id authentication_request);
  metadata ← getitem cid (clients provider !! cid);
  getitem name (member metadata).

Definition _redirect_uri_is_in_registered_redirect_uris (provider : Provider)
    (authentication_request : AuthorizationRequest) : result unit :=
  uri ← getitem "redirect_uri" (redirect_uri authentication_request);
  let error :=
    invalid_authentication_request
      ("Redirect uri '" +:+ uri +:+ "' is not registered")
      authentication_request None in
  match registered provider authentication_request
          "redirect_uris" redirect_uris with
  | Err (KeyError _) => Err error
  | Err e => Err e
  | Ok allowed_redirect_uris =>
      uri ← getitem "redirect_uri" (redirect_uri authentication_request);
      if bool_decide (uri ∈ allowed_redirect_uris) then Ok tt else Err error
  end.

Definition _response_type_is_in_registered_response_types
    (provider : Provider) (authentication_request : AuthorizationRequest)
    : result unit :=
  rt ← getitem "response_type" (response_type authentication_request);
  let error :=
    invalid_authentication_request
      ("Response type '" +:+ String.concat " " rt +:+ "' is not registered")
      authentication_request (Some "invalid_request") in
  match registered provider authentication_request
          "response_types" response_types with
  | Err (KeyError _) => Err error
  | Err e => Err e
  | Ok allowed_response_types =>
      rt ← getitem "response_type" (response_type authentication_request);
      let allowed : gset (gset string) :=
        list_to_set (list_to_set <$> allowed_response_types) in
      if bool_decide (list_to_set rt ∈ allowed) then Ok tt else Err error
  end.

Definition _userinfo_claims_only_specified_when_access_token_is_issued
    (authentication_request : AuthorizationRequest) : result unit :=
  rt ← getitem "response_type" (response_type authentication_request);
  let will_issue_access_token := bool_decide (rt ≠ ["id_token"]) in
  let contains_userinfo_claims_request :=
    match claims authentication_request with
    | Some c => bool_decide (is_Some (userinfo c))
    | None => false
    end in
  if negb will_issue_access_token && contains_userinfo_claims_request then
    Err (invalid_authentication_request
           "Userinfo claims cannot be requested, when response_type='id_token'"
           authentication_request (Some "invalid_request"))
  else Ok tt.

(** The members of the message are joined in the order of [elements]; Python
    leaves the iteration order of a set open. *)
Definition _requested_scope_is_supported (provider : Provider)
    (authentication_request : AuthorizationRequest) : result unit :=
  sc ← getitem "scope" (scope authentication_request);
  supported ← getitem "scopes_supported"
                (scopes_supported (provider_configuration provider));
  let requested_scopes : gset string := list_to_set sc in
  let supported_scopes : gset string := list_to_set supported in
  let requested_unsupported_scopes := requested_scopes ∖ supported_scopes in
  if bool_decide (requested_unsupported_scopes ≠ ∅) then
    Err (invalid_authentication_request
           ("Request contains unsupported/unknown scopes: " +:+
              String.concat ", " (elements requested_unsupported_scopes))
           authentication_request (Some "invalid_scope"))
  else Ok tt.

(** [self.authentication_request_validators], as [Provider.__init__] fills
    it: the partial applications close over the provider. *)
Definition authentication_request_validators (self : Provider)
    : list (AuthorizationRequest → result unit) :=
  [ _authorization_request_verify;
    _client_id_is_known self;
    _redirect_uri_is_in_registered_redirect_uris self;
    _response_type_is_in_registered_response_types self;
    _userinfo_claims_only_specified_when_access_token_is_issued;
    _requested_scope_is_supported self ].

(** [for validator in validators: validator(auth_req)] *)
Fixpoint run_validators (validators : list (AuthorizationRequest → result unit))
    (auth_req : AuthorizationRequest) : result unit :=
  match validators with
  | [] => Ok tt
  | validator :: rest =>
      _ ← validator auth_req;
      run_validators rest auth_req
  end.

Definition parse_authentication_request (self : Provider)
    (request_body : string) (http_headers : option (gmap string string))
    : result AuthorizationRequest :=
  auth_req ← match AuthorizationRequest_deserialize request_body with
             | inr r => Ok r
             | inl name => Err (External name)
             end;
  _ ← run_validators (authentication_request_validators self) auth_req;
  Ok auth_req.

(** ** Issuing: subject identifier, requested claims, ID Token *)

Section endpoints.
Context {W : Type} `{!AuthorizationState W, !Clock W}.

(** A collaborator or library function that answers or raises. *)
Definition answer {A} (r : string + A) : result A :=
  match r with
  | inr a => Ok a
  | inl name => Err (External name)
  end.

(** [time.time()] *)
Definition now : M W Z := λ w, let (t, w') := time_time w in (Ok t, w').

(** [extra_id_token_claims]: [None], a mapping, or a callable of the user
    and client identifiers. *)
Inductive extra_claims :=
| NoExtraClaims
| ExtraClaimsMap (m : gmap string json)
| ExtraClaimsCallable (f : string → string → gmap string json).

(** The [if extra_id_token_claims is None ... elif callable(...)] block. *)
Definition resolve_extra_id_token_claims
    (extra_id_token_claims : extra_claims) (user_id : string)
    (authentication_request : AuthorizationRequest)
    : result (gmap string json) :=
  match extra_id_token_claims with
  | NoExtraClaims => Ok ∅
  | ExtraClaimsMap m => Ok m
  | ExtraClaimsCallable f =>
      cid ← getitem "client_id" (client_id authentication_request);
      Ok (f user_id cid)
  end.

Definition _add_access_token_to_response (response : gmap string member)
    (access_token : AccessToken) : gmap string member :=
  let response := <["access_token" := MStr (value access_token)]> response in
  let response := <["token_type" := MStr (type access_token)]> response in
  <["expires_in" := MInt (expires_in access_token)]> response.

Definition _create_subject_identifier (self : Provider)
    (user_id client_id redirect_uri : string) : M W string :=
  types ← lift (getitem "subject_types_supported"
                  (subject_types_supported (configuration_information self)));
  supported_subject_types ← lift (first types);
  metadata ← lift (getitem client_id (clients self !! client_id));
  let subject_type :=
    default supported_subject_types (subject_type metadata) in
  let sector_identifier := netloc redirect_uri in
  call (get_subject_identifier subject_type user_id sector_identifier).

(** [response_method in authentication_request['claims']] and
    [authentication_request['claims'][response_method]] *)
Definition claims_member (c : ClaimsRequest) (response_method : string)
    : option (gmap string json) :=
  if bool_decide (response_method = "id_token") then id_token c
  else if bool_decide (response_method = "userinfo") then userinfo c
  else None.

Definition _get_requested_claims_in
    (authentication_request : AuthorizationRequest)
    (response_method : string) : result (gmap string json) :=
  if bool_decide (response_method ≠ "id_token")
     && bool_decide (response_method ≠ "userinfo") then
    Err (ValueError "response_method must be 'id_token' or 'userinfo'")
  else
    let requested_claims : gmap string json := ∅ in
    match claims authentication_request with
    | Some c =>
        match claims_member c response_method with
        | Some requested => Ok (requested ∪ requested_claims)
        | None => Ok requested_claims
        end
    | None => Ok requested_claims
    end.

(** [alg[-3:]] *)
Definition last3 (alg : string) : string :=
  String.substring (String.length alg - 3)%nat 3 alg.

(** [IdToken(iss=.., sub=.., aud=.., iat=.., exp=.., **args)]: a keyword
    given twice is a [TypeError]; the message raises for members that do not
    fit its schema, leaves out the members without a value, and stores [aud]
    as a list. *)
Definition IdToken_new (iss sub aud : string) (iat exp : Z)
    (args : gmap string json) : result (gmap string json) :=
  if bool_decide (Exists (λ k, is_Some (args !! k))
                    ["iss"; "sub"; "aud"; "iat"; "exp"]) then
    Err (TypeError "got multiple values for keyword argument")
  else
    match IdToken_error args with
    | Some name => Err (External name)
    | None =>
        let kwargs : gmap string json :=
          <["iss" := JStr iss]> (<["sub" := JStr sub]> (<["aud" := JStr aud]>
            (<["iat" := JNum iat]> (<["exp" := JNum exp]> args)))) in
        Ok (alter (λ v, JArr [v]) "aud" (filter stored kwargs))
    end.

(** [id_token.to_jwt(keys, alg)]: the compact JWS of the members of the
    message, unless the signing raises. *)
Definition to_jwt (id_token : gmap string json) (keys : list string)
    (alg : string) : result JWS :=
  match to_jwt_error id_token keys alg with
  | Some name => Err (External name)
  | None =>
      Ok {| jws_payload := id_token; jws_keys := keys; jws_alg := alg |}
  end.

Definition _create_signed_id_token (self : Provider)
    (client_id sub : string) (user_claims : gmap string json)
    (nonce authorization_code access_token_value : option string)
    (extra_id_token_claims : gmap string json) : M W JWS :=
  metadata ← lift (getitem client_id (clients self !! client_id));
  algs ← lift (getitem "id_token_signing_alg_values_supported"
                 (id_token_signing_alg_values_supported
                    (configuration_information self)));
  supported_alg ← lift (first algs);
  let alg := default supported_alg (id_token_signed_response_alg metadata) in
  let args : gmap string json := ∅ in
  let hash_alg := "HS" +:+ last3 alg in
  let args :=
    if truthy_get authorization_code then
      <["c_hash" := json_of_str
                      (left_hash (default "" authorization_code) hash_alg)]>
        args
    else args in
  let args :=
    if truthy_get access_token_value then
      <["at_hash" := json_of_str
                       (left_hash (default "" access_token_value) hash_alg)]>
        args
    else args in
  let args :=
    if bool_decide (user_claims ≠ ∅) then user_claims ∪ args else args in
  let args :=
    if bool_decide (extra_id_token_claims ≠ ∅) then extra_id_token_claims ∪ args
    else args in
  iss ← lift (getitem "issuer" (issuer (configuration_information self)));
  iat ← now;
  exp_now ← now;
  id_token ← lift (IdToken_new iss sub client_id iat
                     (exp_now + id_token_lifetime self) args);
  let id_token :=
    if truthy_get nonce then <["nonce" := JStr (default "" nonce)]> id_token
    else id_token in
  lift (to_jwt id_token [signing_key self] alg).

Definition _check_subject_identifier_matches_requested
    (authentication_request : AuthorizationRequest) (sub : string)
    : result unit :=
  match claims authentication_request with
  | Some c =>
      let requested_id_token_sub := dict_get (default ∅ (id_token c)) "sub" in
      let requested_userinfo_sub := dict_get (default ∅ (userinfo c)) "sub" in
      if truthy requested_id_token_sub && truthy requested_userinfo_sub
         && bool_decide (requested_id_token_sub ≠ requested_userinfo_sub) then
        Err (AuthorizationError
               ("Requested different subject identifier for IDToken and userinfo: "
                  +:+ format_json requested_id_token_sub +:+ " != "
                  +:+ format_json requested_userinfo_sub))
      else
        let requested_sub :=
          py_or requested_id_token_sub requested_userinfo_sub in
        if truthy requested_sub && bool_decide (JStr sub ≠ requested_sub) then
          Err (AuthorizationError
                 ("Requested subject identifier '" +:+ format_json requested_sub
                    +:+ "' could not be matched"))
        else Ok tt
  | None => Ok tt
  end.

(** ** The authorization endpoint *)

Definition authorize (self : Provider)
    (authentication_request : AuthorizationRequest) (user_id : string)
    (extra_id_token_claims : extra_claims) : M W (gmap string member) :=
  cid ← lift (getitem "client_id" (client_id authentication_request));
  uri ← lift (getitem "redirect_uri" (redirect_uri authentication_request));
  sub ← _create_subject_identifier self user_id cid uri;
  _ ← lift (_check_subject_identifier_matches_requested
              authentication_request sub);
  let response : gmap string member := ∅ in
  rt ← lift (getitem "response_type" (response_type authentication_request));
  '(authz_code, response) ←
    (if bool_decide ("code" ∈ rt) then
       authz_code ← call (create_authorization_code authentication_request sub);
       mret (Some authz_code, <["code" := MStr authz_code]> response)
     else mret (None, response));
  rt ← lift (getitem "response_type" (response_type authentication_request));
  '(access_token_value, response) ←
    (if bool_decide ("token" ∈ rt) then
       access_token ← call (create_access_token authentication_request sub);
       mret (Some (value access_token),
             _add_access_token_to_response response access_token)
     else mret (None, response));
  rt ← lift (getitem "response_type" (response_type authentication_request));
  response ←
    (if bool_decide ("id_token" ∈ rt) then
       extra ← lift (resolve_extra_id_token_claims extra_id_token_claims
                       user_id authentication_request);
       requested_claims ← lift (_get_requested_claims_in
                                  authentication_request "id_token");
       rt ← lift (getitem "response_type"
                    (response_type authentication_request));
       requested_claims ←
         (if bool_decide (length rt = 1%nat) then
            (* only id token is issued -> no way of doing userinfo request,
               so include all claims in ID Token, even those requested by
               the scope parameter *)
            sc ← lift (getitem "scope" (scope authentication_request));
            mret (scope2claims sc ∪ requested_claims)
          else mret requested_claims);
       let user_claims := get_claims_for user_id requested_claims in
       cid ← lift (getitem "client_id" (client_id authentication_request));
       id_token ← _create_signed_id_token self cid sub user_claims
                    (nonce authentication_request)
                    authz_code access_token_value extra;
       mret (<["id_token" := MJws id_token]> response)
     else mret response);
  mret (match state authentication_request with
        | Some st => <["state" := MStr st]> response
        | None => response
        end).

(** ** The token endpoint: exchange of an authorization code *)

Definition _do_code_exchange (self : Provider) (request : gmap string string)
    (extra_id_token_claims : extra_claims) : M W (gmap string member) :=
  let token_request := request in
  _ ← lift (match AccessTokenRequest_verify token_request with
            | Verified => Ok tt
            | MissingValue msg | MissingAttribute msg =>
                Err (InvalidTokenRequest msg "invalid_request")
            | VerifyRaised name => Err (External name)
            end);
  code ← lift (getitem "code" (token_request !! "code"));
  authentication_request ← call (get_authorization_request_for_code code);
  token_uri ← lift (getitem "redirect_uri" (token_request !! "redirect_uri"));
  original_uri ← lift (getitem "redirect_uri"
                         (redirect_uri authentication_request));
  if bool_decide (token_uri ≠ original_uri) then
    lift (Err (InvalidTokenRequest
                 ("Invalid redirect_uri: " +:+ token_uri +:+ " != "
                    +:+ original_uri)
                 "invalid_request"))
  else
    code ← lift (getitem "code" (token_request !! "code"));
    sub ← call (get_subject_identifier_for_code code);
    user_id ← call (get_user_id_for_subject_identifier sub);
    let response : gmap string member := ∅ in
    code ← lift (getitem "code" (token_request !! "code"));
    access_token ← call (exchange_code_for_token code);
    let response := _add_access_token_to_response response access_token in
    refresh_token ← call (create_refresh_token (value access_token));
    let response := <["refresh_token" := MStr refresh_token]> response in
    extra ← lift (resolve_extra_id_token_claims extra_id_token_claims
                    user_id authentication_request);
    requested_claims ← lift (_get_requested_claims_in
                               authentication_request "id_token");
    let user_claims := get_claims_for user_id requested_claims in
    cid ← lift (getitem "client_id" (client_id authentication_request));
    id_token ← _create_signed_id_token self cid sub user_claims
                 (nonce authentication_request)
                 None (Some (value access_token)) extra;
    mret (<["id_token" := MJws id_token]> response).

(** ** The userinfo endpoint *)

(** White space of [str.split()], on ASCII. *)
Definition is_space (a : Ascii.ascii) : bool :=
  let n := Ascii.nat_of_ascii a in
  ((9 <=? n) && (n <=? 13) || (28 <=? n) && (n <=? 32))%nat.

Fixpoint split_from (word : string) (s : string) : list string :=
  match s with
  | EmptyString => if String.eqb word "" then [] else [word]
  | String a rest =>
      if is_space a then
        if String.eqb word "" then split_from "" rest
        else word :: split_from "" rest
      else split_from (word +:+ String a "") rest
  end.

(** [s.split()] *)
Definition split (s : string) : list string := split_from "" s.

(** [OpenIDSchema(sub=.., **user_claims)]: a keyword given twice is a
    [TypeError]. *)
Definition OpenIDSchema_new (sub : string) (user_claims : gmap string json)
    : result (gmap string json) :=
  if bool_decide (is_Some (user_claims !! "sub")) then
    Err (TypeError "got multiple values for keyword argument 'sub'")
  else Ok (<["sub" := JStr sub]> user_claims).

Definition handle_userinfo_request (self : Provider) (request : option string)
    (http_headers : option (gmap string string)) : M W (gmap string json) :=
  bearer_token ← lift (answer (extract_bearer_token_from_http_request
                                 request http_headers));
  introspection ← call (introspect_access_token bearer_token);
  if negb (active introspection) then
    lift (Err (InvalidUserinfoRequest "The access token has expired"))
  else
    scope ← lift (getitem "scope" (introspection_scope introspection));
    sub ← lift (getitem "sub" (introspection_sub introspection));
    user_id ← call (get_user_id_for_subject_identifier sub);
    let requested_claims := scope2claims (split scope) in
    authentication_request ←
      call (get_authorization_request_for_access_token bearer_token);
    userinfo_claims ← lift (_get_requested_claims_in
                              authentication_request "userinfo");
    let requested_claims := userinfo_claims ∪ requested_claims in
    let user_claims := get_claims_for user_id requested_claims in
    sub ← lift (getitem "sub" (introspection_sub introspection));
    lift (OpenIDSchema_new sub user_claims).

End endpoints.

End provider.

(** ** The token endpoint: client authentication, dispatch, token refresh *)

(** [oic.oic.message.RefreshAccessTokenRequest], the members [provider.py]
    reads: [token_request['refresh_token']] and [token_request.get('scope')]. *)
Record RefreshAccessTokenRequest := {
  refresh_token : option string;
  refresh_scope : option (list string)
}.

(** Functions of [urllib], [oic] and [pyop.client_authentication] that the
    token endpoint calls. *)
Class TokenLibrary := {
  (** urllib.parse.parse_qsl *)
  parse_qsl : string → list (string * string);
  (** verify_client_authentication(token_request, clients, authz_header):
      it answers with the request dictionary as it leaves it (the dictionary
      is handed over by reference), or raises. *)
  verify_client_authentication :
    gmap string string → gmap string ClientMetadata → option string
    → string + gmap string string;
  (** RefreshAccessTokenRequest().from_dict(request) *)
  RefreshAccessTokenRequest_from_dict :
    gmap string string → RefreshAccessTokenRequest;
  (** RefreshAccessTokenRequest().from_dict(request).verify() *)
  RefreshAccessTokenRequest_verify : gmap string string → verified
}.

(** [AuthorizationState.use_refresh_token(refresh_token, scope=..)]: the new
    access token and a new refresh token or [None]. *)
Class RefreshState (W : Type) := {
  use_refresh_token :
    string → option (list string) → W
    → (string + (AccessToken * option string)) * W
}.

(** [dict(pairs)]: of two pairs with the same key the later one stays. *)
Definition dict {A} (pairs : list (string * A)) : gmap string A :=
  foldl (λ d kv, <[kv.1 := kv.2]> d) ∅ pairs.

Section token_requests.
Context `{!Library, !Userinfo, !TokenLibrary}.
Context {W : Type} `{!AuthorizationState W, !Clock W, !RefreshState W}.

Definition _verify_client_authentication (self : Provider)
    (request_body : string) (http_headers : option (gmap string string))
    : result (gmap string string) :=
  let http_headers := default ∅ http_headers in
  let token_request := dict (parse_qsl request_body) in
  token_request ← answer (verify_client_authentication token_request
                            (clients self) (http_headers !! "Authorization"));
  Ok token_request.

Definition _do_token_refresh (self : Provider) (request : gmap string string)
    : M W (gmap string member) :=
  let token_request := RefreshAccessTokenRequest_from_dict request in
  _ ← lift (match RefreshAccessTokenRequest_verify request with
            | Verified => Ok tt
            | MissingValue msg | MissingAttribute msg =>
                Err (InvalidTokenRequest msg "invalid_request")
            | VerifyRaised name => Err (External name)
            end);
  let response : gmap string member := ∅ in
  old ← lift (getitem "refresh_token" (refresh_token token_request));
  '(access_token, new_refresh_token) ←
    call (use_refresh_token old (refresh_scope token_request));
  let response := _add_access_token_to_response response access_token in
  mret (if truthy_get new_refresh_token then
          <["refresh_token" := MStr (default "" new_refresh_token)]> response
        else response).

Definition handle_token_request (self : Provider) (request_body : string)
    (http_headers : option (gmap string string))
    (extra_id_token_claims : extra_claims) : M W (gmap string member) :=
  token_request ← lift (_verify_client_authentication self request_body
                          http_headers);
  match token_request !! "grant_type" with
  | None =>
      lift (Err (InvalidTokenRequest "grant_type missing" "invalid_request"))
  | Some grant_type =>
      if bool_decide (grant_type = "authorization_code") then
        _do_code_exchange self token_request extra_id_token_claims
      else if bool_decide (grant_type = "refresh_token") then
        _do_token_refresh self token_request
      else
        lift (Err (InvalidTokenRequest
                     ("grant_type '" +:+ grant_type +:+ "' unknown")
                     "unsupported_grant_type"))
  end.

End token_requests.

(** ** Vocabulary of the properties *)

(** [claims.userinfo] is a member of the request. *)
Definition contains_userinfo_claims (req : AuthorizationRequest) : bool :=
  match claims req with
  | Some c => bool_decide (is_Some (userinfo c))
  | None => false
  end.

(** The exceptions of look-ups, of calls with a repeated keyword and of the
    collaborators: the ones an endpoint raises without a [raise] statement of
    [provider.py]. *)
Definition incidental (e : exn) : Prop :=
  match e with
  | KeyError _ | IndexError | TypeError _ | ValueError _ | External _ => True
  | _ => False
  end.

Definition incidental_result {A} (r : result A) : Prop :=
  ∀ e, r = Err e → incidental e.

Definition raises_incidental {W A} (m : M W A) : Prop :=
  ∀ w e w', m w = (Err e, w') → incidental e.

(** The requested subject identifiers of a [claims] parameter:
    [claims.get('id_token', {}).get('sub')] and the same under [userinfo]. *)
Definition requested_id_token_sub (c : ClaimsRequest) : json :=
  dict_get (default ∅ (id_token c)) "sub".

Definition requested_userinfo_sub (c : ClaimsRequest) : json :=
  dict_get (default ∅ (userinfo c)) "sub".

(** A claim map without the claims that [_create_signed_id_token] passes by
    keyword. *)
Definition without_reserved_claims (m : gmap string json) : Prop :=
  ∀ k, k ∈ ["iss"; "sub"; "aud"; "iat"; "exp"] → m !! k = None.

(** The claims requested through [claims.id_token] and [claims.userinfo]. *)
Definition requested_id_token_claims (req : AuthorizationRequest)
    : gmap string json :=
  default ∅ (claims req ≫= id_token).

Definition requested_userinfo_claims (req : AuthorizationRequest)
    : gmap string json :=
  default ∅ (claims req ≫= userinfo).




Section vocabulary.
Context `{!Library, !Userinfo} {W : Type} `{!AuthorizationState W, !Clock W}.



(** The members that [_create_signed_id_token] passes to [IdToken] beside
    the claims given by keyword, for a token signed with [alg]: the hashes of
    the code and of the access token, updated with the user claims, updated
    with the extra claims. *)
Definition id_token_args (alg : string) (user_claims : gmap string json)
    (code atv : option string) (extra : gmap string json)
    : gmap string json :=
  let hash_alg := "HS" +:+ last3 alg in
  let c_hash : gmap string json :=
    if truthy_get code then
      {[ "c_hash" := json_of_str (left_hash (default "" code) hash_alg) ]}
    else ∅ in
  let at_hash : gmap string json :=
    if truthy_get atv then
      {[ "at_hash" := json_of_str (left_hash (default "" atv) hash_alg) ]}
    else ∅ in
  extra ∪ (user_claims ∪ (at_hash ∪ c_hash)).




End vocabulary.

(** Every exception that [m] raises satisfies [P]. *)
Definition raises_only {W A} (P : exn → Prop) (m : M W A) : Prop :=
  ∀ w e w', m w = (Err e, w') → P e.

(** [InvalidTokenRequest] with [oauth_error='invalid_request'], the default
    of its constructor, or an incidental exception. *)
Definition invalid_request_or_incidental (e : exn) : Prop :=
  match e with
  | InvalidTokenRequest _ oauth_error => oauth_error = "invalid_request"
  | _ => incidental e
  end.

(** The value of a key in a list of pairs, as [dict(pairs)] keeps it: the
    value of the last pair with that key. *)
Definition last_value {A} (k : string) (pairs : list (string * A))
    : option A :=
  last (snd <$> filter (λ kv, kv.1 = k) pairs).

(** ** A small provider to run the endpoints on concrete requests *)

Module Demo.

(** An in-memory authorization state with a clock, standing in for the
    collaborators when an endpoint is run.  Codes, tokens and refresh tokens
    are numbered in the order they are issued; a reading of the clock returns
    [clock] and advances it by [step]. *)
Record Store := {
  clock : Z;
  step : Z;
  issued : nat;
  codes : gmap string (AuthorizationRequest * string);
  access_tokens : gmap string (AuthorizationRequest * string);
  refresh_tokens : gmap string string;
  subjects : gmap string string
}.

Definition fresh (prefix : string) (w : Store) : string :=
  prefix +:+ "-" +:+ String.concat "" (replicate (S (issued w)) "i").

Definition bearer (v : string) : AccessToken :=
  {| value := v; type := "Bearer"; expires_in := 3600 |}.

Definition store_code (c : string) (r : AuthorizationRequest) (sub : string)
    (w : Store) : Store :=
  {| clock := clock w; step := step w; issued := S (issued w);
     codes := <[c := (r, sub)]> (codes w);
     access_tokens := access_tokens w;
     refresh_tokens := refresh_tokens w; subjects := subjects w |}.

Definition store_access_token (t : string) (r : AuthorizationRequest)
    (sub : string) (w : Store) : Store :=
  {| clock := clock w; step := step w; issued := S (issued w);
     codes := codes w;
     access_tokens := <[t := (r, sub)]> (access_tokens w);
     refresh_tokens := refresh_tokens w; subjects := subjects w |}.

Definition consume_code (c t : string) (r : AuthorizationRequest)
    (sub : string) (w : Store) : Store :=
  {| clock := clock w; step := step w; issued := S (issued w);
     codes := delete c (codes w);
     access_tokens := <[t := (r, sub)]> (access_tokens w);
     refresh_tokens := refresh_tokens w; subjects := subjects w |}.

Definition store_refresh_token (rt t : string) (w : Store) : Store :=
  {| clock := clock w; step := step w; issued := S (issued w);
     codes := codes w; access_tokens := access_tokens w;
     refresh_tokens := <[rt := t]> (refresh_tokens w);
     subjects := subjects w |}.

Definition store_subject (sub user_id : string) (w : Store) : Store :=
  {| clock := clock w; step := step w; issued := issued w;
     codes := codes w; access_tokens := access_tokens w;
     refresh_tokens := refresh_tokens w;
     subjects := <[sub := user_id]> (subjects w) |}.

Definition advance (w : Store) : Store :=
  {| clock := clock w + step w; step := step w; issued := issued w;
     codes := codes w; access_tokens := access_tokens w;
     refresh_tokens := refresh_tokens w; subjects := subjects w |}.

Definition found {A} (name : string) (o : option A) (w : Store)
    : (string + A) * Store :=
  match o with
  | Some a => (inr a, w)
  | None => (inl name, w)
  end.

#[export] Instance authz_state : AuthorizationState Store := {
  create_authorization_code r sub w :=
    let c := fresh "code" w in (inr c, store_code c r sub w);
  create_access_token r sub w :=
    let t := fresh "token" w in (inr (bearer t), store_access_token t r sub w);
  create_refresh_token t w :=
    match access_tokens w !! t with
    | Some _ => let rt := fresh "refresh" w in
                (inr rt, store_refresh_token rt t w)
    | None => (inl "InvalidAccessToken", w)
    end;
  exchange_code_for_token c w :=
    match codes w !! c with
    | Some (r, sub) => let t := fresh "token" w in
                       (inr (bearer t), consume_code c t r sub w)
    | None => (inl "InvalidAuthorizationCode", w)
    end;
  get_authorization_request_for_code c w :=
    found "InvalidAuthorizationCode" (fst <$> codes w !! c) w;
  get_subject_identifier_for_code c w :=
    found "InvalidAuthorizationCode" (snd <$> codes w !! c) w;
  get_user_id_for_subject_identifier sub w :=
    found "InvalidSubjectIdentifier" (subjects w !! sub) w;
  get_authorization_request_for_access_token t w :=
    found "InvalidAccessToken" (fst <$> access_tokens w !! t) w;
  introspect_access_token t w :=
    match access_tokens w !! t with
    | Some (r, sub) =>
        (inr {| active := true;
                introspection_scope :=
                  Some (String.concat " " (default [] (scope r)));
                introspection_sub := Some sub |}, w)
    | None => (inr {| active := false; introspection_scope := None;
                      introspection_sub := None |}, w)
    end;
  get_subject_identifier subject_type user_id sector_identifier w :=
    let sub :=
      if String.eqb subject_type "public" then "public-" +:+ user_id
      else "pairwise-" +:+ user_id +:+ "@" +:+ sector_identifier in
    (inr sub, store_subject sub user_id w)
}.

#[export] Instance clock_of_store : Clock Store := {
  time_time w := (clock w, advance w)
}.

(** The user-info source: the claims of the user that were requested. *)
Definition users : gmap string (gmap string json) :=
  {[ "alice" := {[ "name" := JStr "Alice"; "email" := JStr "alice@rp" ]} ]}.

#[export] Instance user_info : Userinfo := {
  get_claims_for user_id requested :=
    filter (λ kv, is_Some (requested !! kv.1)) (default ∅ (users !! user_id))
}.

Definition request_of (rt : list string) (cid uri : string)
    (sc : list string) (n : option string) (c : option ClaimsRequest)
    : AuthorizationRequest :=
  {| response_type := Some rt; client_id := Some cid; redirect_uri := Some uri;
     scope := Some sc; state := Some "xyz"; nonce := n; claims := c |}.

Definition code_request : AuthorizationRequest :=
  request_of ["code"] "c1" "https://rp/cb" ["openid"] None None.

Definition id_token_request : AuthorizationRequest :=
  request_of ["id_token"] "c1" "https://rp/cb" ["openid"; "profile"]
    (Some "n") None.

Definition hybrid_request : AuthorizationRequest :=
  request_of ["code"; "id_token"; "token"] "c1" "https://rp/cb" ["openid"]
    (Some "n") None.

(** [response_type=code code]: the response-type set is {code}. *)
Definition repeated_code_request : AuthorizationRequest :=
  request_of ["code"; "code"] "c1" "https://rp/cb" ["openid"] None None.

(** [response_type=id_token id_token] with a [claims.userinfo] member. *)
Definition repeated_id_token_request : AuthorizationRequest :=
  request_of ["id_token"; "id_token"] "c1" "https://rp/cb" ["openid"]
    (Some "n")
    (Some {| id_token := None; userinfo := Some {[ "email" := JNull ]} |}).

(** A client that is not registered, with a redirect URI of its own. *)
Definition unknown_client_request : AuthorizationRequest :=
  request_of ["code"] "mallory" "https://evil/cb" ["openid"] None None.

(** The registered client [c1] with a redirect URI that is not registered
    for it, and without [openid] in the scope. *)
Definition unregistered_redirect_request : AuthorizationRequest :=
  request_of ["code"] "c1" "https://evil/cb" ["profile"] None None.

(** A request without [response_type]. *)
Definition no_response_type_request : AuthorizationRequest :=
  {| response_type := None; client_id := Some "c1";
     redirect_uri := Some "https://rp/cb"; scope := Some ["openid"];
     state := None; nonce := None; claims := None |}.

Definition unsupported_scope_request : AuthorizationRequest :=
  request_of ["code"] "c1" "https://rp/cb" ["openid"; "writer"] None None.

(** Requests that ask for a subject identifier. *)
Definition sub_request (a b : option json) : AuthorizationRequest :=
  request_of ["code"] "c1" "https://rp/cb" ["openid"] None
    (Some {| id_token := (λ v, {[ "sub" := v ]}) <$> a;
             userinfo := (λ v, {[ "sub" := v ]}) <$> b |}).

(** Request bodies, and the parsed requests they stand for. *)
Definition code_body : string :=
  "response_type=code&client_id=c1&redirect_uri=https://rp/cb&scope=openid&state=xyz".

Definition repeated_code_body : string :=
  "response_type=code+code&client_id=c1&redirect_uri=https://rp/cb&scope=openid&state=xyz".

Definition unknown_client_body : string :=
  "response_type=code&client_id=mallory&redirect_uri=https://evil/cb&scope=openid&state=xyz".

Definition unsupported_scope_body : string :=
  "response_type=code&client_id=c1&redirect_uri=https://rp/cb&scope=openid+writer&state=xyz".

Definition no_response_type_body : string :=
  "client_id=c1&redirect_uri=https://rp/cb&scope=openid".

Definition unregistered_redirect_body : string :=
  "response_type=code&client_id=c1&redirect_uri=https://evil/cb&scope=profile&state=xyz".

Definition bodies : list (string * AuthorizationRequest) :=
  [ (code_body, code_request);
    (repeated_code_body, repeated_code_request);
    (unknown_client_body, unknown_client_request);
    (unsupported_scope_body, unsupported_scope_request);
    (no_response_type_body, no_response_type_request);
    (unregistered_redirect_body, unregistered_redirect_request) ].

Definition required {A} (name : string) (o : option A) (k : verified)
    : verified :=
  match o with
  | Some _ => k
  | None => MissingAttribute (name +:+ " missing")
  end.

Definition netloc_of (uri : string) : string :=
  match String.index 0 "://" uri with
  | Some i =>
      let rest := String.substring (i + 3) (String.length uri) uri in
      match String.index 0 "/" rest with
      | Some j => String.substring 0 j rest
      | None => rest
      end
  | None => ""
  end.

(** The library functions of the demo: the parser is the table [bodies],
    the schema checks ask for the required members only, the hash algorithms
    are [HS256], [HS384] and [HS512], an ID Token takes no string as
    [auth_time], and the keys do not sign with the [ES] algorithms. *)
#[export] Instance library : Library := {
  AuthorizationRequest_deserialize body :=
    match list_find (λ entry, entry.1 = body) bodies with
    | Some (_, (_, r)) => inr r
    | None => inl "ValueError"
    end;
  AuthorizationRequest_verify r :=
    required "response_type" (response_type r)
      (required "client_id" (client_id r)
         (required "redirect_uri" (redirect_uri r)
            (if bool_decide ("openid" ∈ default [] (scope r)) then Verified
             else MissingValue "openid not in scope")));
  AccessTokenRequest_verify r :=
    required "code" (r !! "code")
      (required "redirect_uri" (r !! "redirect_uri") Verified);
  scope2claims sc :=
    if bool_decide ("profile" ∈ sc) then {[ "name" := JNull ]} else ∅;
  ErrorResponse_request members location fragment_enc :=
    location +:+ (if fragment_enc then "#" else "?") +:+
      String.concat "&"
        ((λ kv, kv.1 +:+ "=" +:+ kv.2) <$> map_to_list members);
  left_hash msg hash_alg :=
    if bool_decide (hash_alg ∈ ["HS256"; "HS384"; "HS512"]) then
      Some (hash_alg +:+ "(" +:+ msg +:+ ")")
    else None;
  netloc := netloc_of;
  format_json v := match v with JStr s => s | _ => "<json>" end;
  extract_bearer_token_from_http_request request http_headers :=
    match http_headers ≫= (.!! "Authorization") with
    | Some h =>
        if String.prefix "Bearer " h
        then inr (String.substring 7 (String.length h) h)
        else inl "BearerTokenError"
    | None => inl "BearerTokenError"
    end;
  IdToken_error args :=
    match args !! "auth_time" with
    | Some (JStr s) => if bool_decide (s = "") then None else Some "ValueError"
    | _ => None
    end;
  to_jwt_error id_token keys alg :=
    if String.prefix "ES" alg then Some "NoSuitableSigningKeys" else None
}.

Definition provider : Provider :=
  Provider_init "key-1"
    {| issuer := Some "https://op"; subject_types_supported := None;
       id_token_signing_alg_values_supported := None;
       scopes_supported := None |}
    {[ "c1" := {| redirect_uris := Some ["https://rp/cb"];
                  response_types :=
                    Some [["code"]; ["id_token"]; ["code"; "id_token"; "token"]];
                  subject_type := None;
                  id_token_signed_response_alg := None |} ]}
    None.

(** The empty store; the clock reads [t] and advances by [d] per reading. *)
Definition store (t d : Z) : Store :=
  {| clock := t; step := d; issued := 0; codes := ∅; access_tokens := ∅;
     refresh_tokens := ∅; subjects := ∅ |}.

(** The store after the code [code-i] was issued to the client [c1]. *)
Definition after_code_flow : Store :=
  (authorize provider code_request "alice" NoExtraClaims (store 100 0)).2.

(** Token requests for that code, with the redirect URI of the authorization
    request and with another one. *)
Definition token_request (uri : string) : gmap string string :=
  {[ "grant_type" := "authorization_code"; "code" := "code-i";
     "redirect_uri" := uri; "client_id" := "c1" ]}.

(** An implicit-flow request with scope [profile] and a [claims.userinfo]
    member, and the store after the access token [token-i] was issued for
    it. *)
Definition implicit_request : AuthorizationRequest :=
  request_of ["id_token"; "token"] "c1" "https://rp/cb" ["openid"; "profile"]
    (Some "n")
    (Some {| id_token := None;
             userinfo := Some {[ "email" := JObj {[ "essential" := JBool true ]} ]} |}).

Definition after_implicit_flow : Store :=
  (authorize provider implicit_request "alice" NoExtraClaims (store 100 0)).2.

Definition bearer_header : gmap string string :=
  {[ "Authorization" := "Bearer token-i" ]}.

(** The claims that the userinfo endpoint requests for [token-i]. *)
Definition implicit_requested_claims : gmap string json :=
  requested_userinfo_claims implicit_request
    ∪ scope2claims (split "openid profile").

(** The derived subject identifier under [id_token], another value under
    [userinfo]. *)
Definition conflicting_sub_request : AuthorizationRequest :=
  sub_request (Some (JStr "pairwise-alice@rp")) (Some (JStr "other")).

(** The [claims] parameter of [sub_request (Some (JStr ..)) None]. *)
Definition requested_sub_claims : ClaimsRequest :=
  {| id_token := Some {[ "sub" := JStr "pairwise-alice@rp" ]};
     userinfo := None |}.

(** The subject identifier of [alice] at [c1], requested in the form of a
    claims request, [{"sub": {"value": ..}}], under [id_token]. *)
Definition requested_value_request : AuthorizationRequest :=
  sub_request (Some (JObj {[ "value" := JStr "pairwise-alice@rp" ]})) None.

(** The provider with a client that asks for ID Tokens with the algorithm
    [none], and with one that asks for [ES256]. *)
Definition provider_of (alg : string) : Provider :=
  Provider_init "key-1"
    {| issuer := Some "https://op"; subject_types_supported := None;
       id_token_signing_alg_values_supported := None;
       scopes_supported := None |}
    {[ "c1" := {| redirect_uris := Some ["https://rp/cb"];
                  response_types :=
                    Some [["code"]; ["id_token"]; ["code"; "id_token"; "token"]];
                  subject_type := None;
                  id_token_signed_response_alg := Some alg |} ]}
    None.

(** The value that a run returned ([d] when it raised), and the ID Token of
    a response. *)
Definition returned {A} (d : A) (run : result A * Store) : A :=
  match run.1 with
  | Ok a => a
  | Err _ => d
  end.

Definition id_token_of (resp : gmap string member) : JWS :=
  match resp !! "id_token" with
  | Some (MJws j) => j
  | _ => {| jws_payload := ∅; jws_keys := []; jws_alg := "" |}
  end.

End Demo.

(** ** The demo provider at its token endpoint *)

Module TokenDemo.
Import Demo.

(** The fields of a request body, cut at [sep]. *)
Fixpoint split_on (sep word s : string) : list string :=
  match s with
  | EmptyString => [word]
  | String a rest =>
      if String.eqb (String a "") sep then word :: split_on sep "" rest
      else split_on sep (word +:+ String a "") rest
  end.

Definition pair_of (field : string) : string * string :=
  match String.index 0 "=" field with
  | Some i =>
      (String.substring 0 i field,
       String.substring (S i) (String.length field) field)
  | None => (field, "")
  end.

(** The library functions of the token endpoint of the demo: the parser
    cuts the body at [&] and [=] and drops the fields with a blank value,
    without decoding; a client authenticates by naming a registered
    [client_id] in the body; the schema check of a refresh request asks for
    [refresh_token]. *)
#[export] Instance token_library : TokenLibrary := {
  parse_qsl body :=
    filter (λ kv, kv.2 ≠ "") (pair_of <$> split_on "&" "" body);
  verify_client_authentication request clients authz_header :=
    match request !! "client_id" with
    | Some cid =>
        if bool_decide (is_Some (clients !! cid)) then inr request
        else inl "InvalidClientAuthentication"
    | None => inl "InvalidClientAuthentication"
    end;
  RefreshAccessTokenRequest_from_dict request :=
    {| refresh_token := request !! "refresh_token";
       refresh_scope := split <$> request !! "scope" |};
  RefreshAccessTokenRequest_verify request :=
    required "refresh_token" (request !! "refresh_token") Verified
}.

(** A refresh token gives a new access token for the request and the
    subject of the access token it was created for, and no new refresh
    token. *)
#[export] Instance refresh_state : RefreshState Store := {
  use_refresh_token old scope w :=
    match refresh_tokens w !! old ≫= (access_tokens w !!.) with
    | Some (r, sub) =>
        let t := fresh "token" w in
        (inr (bearer t, None), store_access_token t r sub w)
    | None => (inl "InvalidRefreshToken", w)
    end
}.

(** The response type of [hybrid_request], in another order and with a
    member repeated. *)
Definition permuted_hybrid_request : AuthorizationRequest :=
  request_of ["token"; "id_token"; "code"; "token"] "c1" "https://rp/cb"
    ["openid"] (Some "n") None.

(** The configuration and the clients that [provider] is built from. *)
Definition configuration : Configuration :=
  {| issuer := Some "https://op"; subject_types_supported := None;
     id_token_signing_alg_values_supported := None;
     scopes_supported := None |}.

Definition c1 : ClientMetadata :=
  {| redirect_uris := Some ["https://rp/cb"];
     response_types :=
       Some [["code"]; ["id_token"]; ["code"; "id_token"; "token"]];
     subject_type := None;
     id_token_signed_response_alg := None |}.

(** The error raised for [unsupported_scope_body]. *)
Definition unsupported_scope_error : InvalidAuthenticationRequest :=
  {| message := "Request contains unsupported/unknown scopes: writer";
     request := unsupported_scope_request;
     oauth_error := Some "invalid_scope" |}.

(** The store after the subject identifier of [alice] was derived. *)
Definition after_subject : Store :=
  store_subject "pairwise-alice@rp" "alice" (store 100 0).

(** The store after the code [code-i] was exchanged: the access token
    [token-ii] and the refresh token [refresh-iii] were issued. *)
Definition after_code_exchange : Store :=
  (_do_code_exchange provider (token_request "https://rp/cb") NoExtraClaims
     after_code_flow).2.

(** Token request bodies. *)
Definition refresh_body : string :=
  "grant_type=refresh_token&refresh_token=refresh-iii&client_id=c1".

Definition password_body : string :=
  "grant_type=authorization_code&client_id=c1&grant_type=password".

Definition refresh_request : gmap string string :=
  {[ "grant_type" := "refresh_token"; "refresh_token" := "refresh-iii";
     "client_id" := "c1" ]}.

(** Extra claims that name a claim passed by keyword. *)
Definition reserved_extra_claims : extra_claims :=
  ExtraClaimsMap {[ "aud" := JStr "other" ]}.

End TokenDemo.

(** * Properties *)

(** ** Encoding of the response *)

Section encoding.
Context `{!Library}.

Lemma should_fragment_encode_list (req : AuthorizationRequest)
    (rt : list string) :
  response_type req = Some rt →
  should_fragment_encode req = Ok (negb (bool_decide (rt = ["code"]))).
Proof.
  intros Hrt. unfold should_fragment_encode. rewrite Hrt. simpl.
  by case_bool_decide.
Qed.

Lemma should_fragment_encode_missing (req : AuthorizationRequest) :
  response_type req = None →
  should_fragment_encode req = Err (KeyError "response_type").
Proof. intros Hrt. unfold should_fragment_encode. by rewrite Hrt. Qed.

(** A list without repetition whose members are exactly [x] is [[x]]. *)
Lemma singleton_set_list (x : string) (l : list string) :
  NoDup l → (list_to_set l : gset string) = {[ x ]} → l = [x].
Proof.
  intros Hnd Hset.
  assert (Hin : ∀ y, y ∈ l ↔ y = x).
  { intros y. rewrite <- (elem_of_list_to_set (C:=gset string)), Hset.
    apply elem_of_singleton. }
  destruct l as [|a l].
  - exfalso. apply (not_elem_of_nil x). by apply Hin.
  - assert (a = x) as -> by (apply Hin; left).
    destruct l as [|b l]; [done|].
    assert (b = x) as -> by (apply Hin; right; left).
    apply NoDup_cons in Hnd as [Hnotin _]. exfalso. apply Hnotin. left.
Qed.

(** On a response type without repeated members, the answer is "query"
    exactly for the set {code}. *)
Lemma should_fragment_encode_set (req : AuthorizationRequest)
    (rt : list string) :
  response_type req = Some rt → NoDup rt →
  (should_fragment_encode req = Ok false
     ↔ (list_to_set rt : gset string) = {[ "code" ]})
  ∧ (should_fragment_encode req = Ok true
     ↔ (list_to_set rt : gset string) ≠ {[ "code" ]}).
Proof.
  intros Hrt Hnd. rewrite (should_fragment_encode_list req rt Hrt).
  assert (Hone : (list_to_set ["code"] : gset string) = {[ "code" ]})
    by set_solver.
  case_bool_decide as Hc; simpl.
  - subst rt. split; (split; [intros H0|intros H1]); try done.
  - assert (Hne : (list_to_set rt : gset string) ≠ {[ "code" ]}).
    { intros Hset. apply Hc. by apply singleton_set_list. }
    split; (split; [intros H0|intros H1]); try done.
Qed.

Lemma to_error_url_unknown (e : InvalidAuthenticationRequest) :
  truthy_get (redirect_uri (request e)) && truthy_get (oauth_error e) = false →
  to_error_url e = Ok None.
Proof. intros Hk. unfold to_error_url. by rewrite Hk. Qed.

Lemma to_error_url_known (e : InvalidAuthenticationRequest) :
  truthy_get (redirect_uri (request e)) && truthy_get (oauth_error e) = true →
  to_error_url e =
    (fragment_enc ← should_fragment_encode (request e);
     Ok (Some (ErrorResponse_request
                 {[ "error" := default "" (oauth_error e);
                    "error_message" := message e ]}
                 (default "" (redirect_uri (request e))) fragment_enc))).
Proof. intros Hk. unfold to_error_url. by rewrite Hk. Qed.

(** An error redirect is encoded as [should_fragment_encode] says. *)
Lemma to_error_url_encoding (e : InvalidAuthenticationRequest) (url : string) :
  to_error_url e = Ok (Some url) →
  ∃ fragment_enc,
    should_fragment_encode (request e) = Ok fragment_enc
    ∧ url = ErrorResponse_request
              {[ "error" := default "" (oauth_error e);
                 "error_message" := message e ]}
              (default "" (redirect_uri (request e))) fragment_enc.
Proof.
  intros Hurl.
  destruct (truthy_get (redirect_uri (request e)) && truthy_get (oauth_error e))
    eqn:Hk.
  - rewrite (to_error_url_known e Hk) in Hurl.
    destruct (should_fragment_encode (request e)) as [b|x]; simpl in Hurl;
      [|done].
    exists b. split; [done|]. by inversion Hurl.
  - by rewrite (to_error_url_unknown e Hk) in Hurl.
Qed.

(** ** Error redirects *)

Lemma to_error_url_None (e : InvalidAuthenticationRequest) :
  to_error_url e = Ok None
  ↔ truthy_get (redirect_uri (request e)) && truthy_get (oauth_error e) = false.
Proof.
  split; [|apply to_error_url_unknown].
  destruct (truthy_get (redirect_uri (request e)) && truthy_get (oauth_error e))
    eqn:Hk; [|done].
  rewrite (to_error_url_known e Hk).
  by destruct (should_fragment_encode (request e)).
Qed.

(** Looking up the registration of the client raises nothing but
    [KeyError]. *)
Lemma registered_KeyError {A} (provider : Provider)
    (req : AuthorizationRequest) (name : string)
    (member : ClientMetadata → option A) (x : exn) :
  registered provider req name member = Err x → ∃ k, x = KeyError k.
Proof.
  unfold registered.
  destruct (client_id req) as [cid|]; simpl; [|intros [= <-]; by eexists].
  destruct (clients provider !! cid) as [metadata|]; simpl;
    [|intros [= <-]; by eexists].
  destruct (member metadata); simpl; [done|intros [= <-]; by eexists].
Qed.

(** The error raised for an unregistered redirect URI has no [oauth_error]. *)
Lemma unregistered_redirect_uri_error (provider : Provider)
    (req : AuthorizationRequest) (e : InvalidAuthenticationRequest) :
  _redirect_uri_is_in_registered_redirect_uris provider req
    = Err (Raise_InvalidAuthenticationRequest e) →
  oauth_error e = None ∧ request e = req.
Proof.
  unfold _redirect_uri_is_in_registered_redirect_uris.
  destruct (redirect_uri req) as [uri|]; simpl; [|done].
  destruct (registered provider req "redirect_uris" redirect_uris)
    as [allowed|x] eqn:Hreg; simpl.
  - case_bool_decide; [done|]. intros [= <-]. done.
  - destruct (registered_KeyError _ _ _ _ _ Hreg) as [k ->].
    intros [= <-]. done.
Qed.

(** The error raised by the schema check carries [invalid_request]. *)
Lemma schema_error (req : AuthorizationRequest)
    (e : InvalidAuthenticationRequest) :
  _authorization_request_verify req = Err (Raise_InvalidAuthenticationRequest e) →
  oauth_error e = Some "invalid_request" ∧ request e = req.
Proof.
  unfold _authorization_request_verify.
  destruct (AuthorizationRequest_verify req); try done; by intros [= <-].
Qed.

(** C10: [to_error_url] returns [None] whenever the parsed request lacks
    [redirect_uri] or the error carries no [oauth_error], whatever the other
    members of the request are; when both are present it indexes
    [response_type]: with it the URL is built, without it the [KeyError] of
    [should_fragment_encode] escapes.  So the error raised by the schema
    check for a request that carries [redirect_uri] but no [response_type]
    (its [oauth_error] is [invalid_request]) is not converted to an error
    URL. *)
Theorem to_error_url_requires_response_type
    (e : InvalidAuthenticationRequest) :
  (truthy_get (redirect_uri (request e)) = false
     ∨ truthy_get (oauth_error e) = false →
   to_error_url e = Ok None)
  ∧ (truthy_get (redirect_uri (request e)) = true →
     truthy_get (oauth_error e) = true →
     (response_type (request e) = None →
      to_error_url e = Err (KeyError "response_type"))
     ∧ (∀ rt, response_type (request e) = Some rt →
        ∃ url, to_error_url e = Ok (Some url)))
  ∧ (∀ req,
       _authorization_request_verify req
         = Err (Raise_InvalidAuthenticationRequest e) →
       truthy_get (redirect_uri req) = true →
       response_type req = None →
       oauth_error e = Some "invalid_request"
       ∧ to_error_url e = Err (KeyError "response_type")).
Proof.
  split; [|split].
  - intros Hk. apply to_error_url_unknown.
    destruct Hk as [-> | ->]; [done|apply andb_false_r].
  - intros Hr Ho.
    assert (Hk : truthy_get (redirect_uri (request e))
                 && truthy_get (oauth_error e) = true) by (by rewrite Hr, Ho).
    rewrite (to_error_url_known e Hk). split.
    + intros Hrt. by rewrite (should_fragment_encode_missing _ Hrt).
    + intros rt Hrt. rewrite (should_fragment_encode_list _ rt Hrt).
      by eexists.
  - intros req Hraise Hr Hrt.
    destruct (schema_error req e Hraise) as [Ho Hreq]. split; [done|].
    assert (Hk : truthy_get (redirect_uri (request e))
                 && truthy_get (oauth_error e) = true)
      by (by rewrite Hreq, Hr, Ho).
    rewrite (to_error_url_known e Hk), Hreq.
    by rewrite (should_fragment_encode_missing _ Hrt).
Qed.

End encoding.

(** ** The validator pipeline *)

Section validators.
Context `{!Library}.

Lemma userinfo_claims_validator (req : AuthorizationRequest)
    (rt : list string) :
  response_type req = Some rt →
  _userinfo_claims_only_specified_when_access_token_is_issued req =
    if bool_decide (rt = ["id_token"]) && contains_userinfo_claims req then
      Err (invalid_authentication_request
             "Userinfo claims cannot be requested, when response_type='id_token'"
             req (Some "invalid_request"))
    else Ok tt.
Proof.
  intros Hrt.
  unfold _userinfo_claims_only_specified_when_access_token_is_issued,
    contains_userinfo_claims.
  rewrite Hrt. simpl. by repeat case_bool_decide.
Qed.

(** On a response type without repeated members the validator fails, with
    [invalid_request], exactly when [claims.userinfo] is present and the
    response-type set is {id_token}; a response type with another member
    never fails it. *)
Lemma userinfo_claims_validator_set (req : AuthorizationRequest)
    (rt : list string) :
  response_type req = Some rt →
  (NoDup rt →
   (∃ e, _userinfo_claims_only_specified_when_access_token_is_issued req
           = Err (Raise_InvalidAuthenticationRequest e)
         ∧ oauth_error e = Some "invalid_request")
   ↔ contains_userinfo_claims req = true
     ∧ (list_to_set rt : gset string) = {[ "id_token" ]})
  ∧ (∀ x, x ∈ rt → x ≠ "id_token" →
     _userinfo_claims_only_specified_when_access_token_is_issued req = Ok tt).
Proof.
  intros Hrt. rewrite (userinfo_claims_validator req rt Hrt). split.
  - intros Hnd. case_bool_decide as Hc; simpl.
    + subst rt. destruct (contains_userinfo_claims req); simpl.
      * split; [intros _; split; [done|set_solver]|].
        intros _. by eexists.
      * split; [by intros (e & ? & _)|by intros [? _]].
    + split; [by intros (e & ? & _)|].
      intros [_ Hset]. exfalso. apply Hc. by apply singleton_set_list.
  - intros x Hin Hx. case_bool_decide as Hc; [|done].
    subst rt. apply list_elem_of_singleton in Hin. done.
Qed.

Lemma run_validators_passed
    (ran rest : list (AuthorizationRequest → result unit))
    (auth_req : AuthorizationRequest) :
  Forall (λ validator, validator auth_req = Ok tt) ran →
  run_validators (ran ++ rest)%list auth_req = run_validators rest auth_req.
Proof.
  induction 1 as [|validator ran Hpass _ IH]; [done|].
  simpl. by rewrite Hpass.
Qed.

Lemma run_validators_first_failure
    (ran later : list (AuthorizationRequest → result unit))
    (failing : AuthorizationRequest → result unit)
    (auth_req : AuthorizationRequest) (e : exn) :
  Forall (λ validator, validator auth_req = Ok tt) ran →
  failing auth_req = Err e →
  run_validators (ran ++ failing :: later)%list auth_req = Err e.
Proof.
  intros Hran Hfail. rewrite (run_validators_passed _ _ _ Hran).
  simpl. by rewrite Hfail.
Qed.

(** C2: [parse_authentication_request] runs the validators on the parsed
    request in the fixed order schema verify, client known, redirect_uri
    registered, response_type registered, userinfo claims against the
    response type, scope support.  The first validator that fails decides
    the outcome: what it raises is raised by [parse_authentication_request],
    whatever validators come after it (they are not run); when all six pass,
    the parsed request is returned. *)
Theorem parse_authentication_request_pipeline (self : Provider)
    (request_body : string) (http_headers : option (gmap string string))
    (auth_req : AuthorizationRequest) :
  AuthorizationRequest_deserialize request_body = inr auth_req →
  authentication_request_validators self =
    [ _authorization_request_verify;
      _client_id_is_known self;
      _redirect_uri_is_in_registered_redirect_uris self;
      _response_type_is_in_registered_response_types self;
      _userinfo_claims_only_specified_when_access_token_is_issued;
      _requested_scope_is_supported self ]
  ∧ (∀ (ran later : list (AuthorizationRequest → result unit)) failing e,
       authentication_request_validators self = (ran ++ failing :: later)%list →
       Forall (λ validator, validator auth_req = Ok tt) ran →
       failing auth_req = Err e →
       parse_authentication_request self request_body http_headers = Err e
       ∧ ∀ later',
           run_validators (ran ++ failing :: later')%list auth_req = Err e)
  ∧ (Forall (λ validator, validator auth_req = Ok tt)
       (authentication_request_validators self) →
     parse_authentication_request self request_body http_headers
       = Ok auth_req).
Proof.
  intros Hparsed. split; [done|].
  assert (Hrun : ∀ r,
    run_validators (authentication_request_validators self) auth_req = r →
    parse_authentication_request self request_body http_headers
      = (_ ← r; Ok auth_req)).
  { intros r <-. unfold parse_authentication_request. by rewrite Hparsed. }
  split.
  - intros ran later failing e Hsplit Hran Hfail. split.
    + rewrite (Hrun (Err e)); [done|]. rewrite Hsplit.
      by apply run_validators_first_failure.
    + intros later'. by apply run_validators_first_failure.
  - intros Hall. rewrite (Hrun (Ok tt)); [done|].
    rewrite <- (app_nil_r (authentication_request_validators self)).
    by rewrite (run_validators_passed _ [] _ Hall).
Qed.

End validators.

(** ** Running the endpoints *)

Section monad.
Context {W : Type}.

Lemma bind_Ok {A B} (m : M W A) (f : A → M W B) (w w1 : W) (a : A) :
  m w = (Ok a, w1) → (m ≫= f) w = f a w1.
Proof. intros Hm. unfold mbind, M_bind. by rewrite Hm. Qed.

Lemma bind_Err {A B} (m : M W A) (f : A → M W B) (w w1 : W) (e : exn) :
  m w = (Err e, w1) → (m ≫= f) w = (Err e, w1).
Proof. intros Hm. unfold mbind, M_bind. by rewrite Hm. Qed.

Lemma bind_lift {A B} (r : result A) (f : A → M W B) (w : W) :
  (lift r ≫= f) w = match r with Ok a => f a w | Err e => (Err e, w) end.
Proof. unfold mbind, M_bind, lift. by destruct r. Qed.

Lemma bind_call {A B} (c : W → (string + A) * W) (f : A → M W B) (w : W) :
  (call c ≫= f) w =
    match c w with
    | (inr a, w1) => f a w1
    | (inl name, w1) => (Err (External name), w1)
    end.
Proof. unfold mbind, M_bind, call. by destruct (c w) as [[name|a] w1]. Qed.

Lemma bind_inv_Ok {A B} (m : M W A) (f : A → M W B) (w w' : W) (b : B) :
  (m ≫= f) w = (Ok b, w') →
  ∃ a w1, m w = (Ok a, w1) ∧ f a w1 = (Ok b, w').
Proof.
  unfold mbind, M_bind. destruct (m w) as [[a|e] w1]; [|done].
  intros Hf. by exists a, w1.
Qed.

Lemma lift_inv_Ok {A} (r : result A) (w w' : W) (a : A) :
  lift r w = (Ok a, w') → r = Ok a ∧ w' = w.
Proof. unfold lift. by intros [= -> ->]. Qed.

Lemma call_inv_Ok {A} (c : W → (string + A) * W) (w w' : W) (a : A) :
  call c w = (Ok a, w') → c w = (inr a, w').
Proof.
  unfold call. destruct (c w) as [[name|a'] w1]; [done|]. by intros [= -> ->].
Qed.

Lemma ret_inv_Ok {A} (a b : A) (w w' : W) :
  (mret a : M W A) w = (Ok b, w') → b = a ∧ w' = w.
Proof. unfold mret, M_ret. by intros [= -> ->]. Qed.

Lemma raises_incidental_bind {A B} (m : M W A) (f : A → M W B) :
  raises_incidental m → (∀ a, raises_incidental (f a)) →
  raises_incidental (m ≫= f).
Proof.
  intros Hm Hf w e w'. unfold mbind, M_bind.
  destruct (m w) as [[a|e1] w1] eqn:Hrun.
  - apply Hf.
  - intros [= <- <-]. by eapply Hm.
Qed.

Lemma raises_incidental_ret {A} (a : A) : raises_incidental (mret a : M W A).
Proof. by intros w e w'. Qed.

Lemma raises_incidental_lift {A} (r : result A) :
  incidental_result r → raises_incidental (lift r : M W A).
Proof. intros Hr w e w'. unfold lift. intros [= -> _]. by apply Hr. Qed.

Lemma raises_incidental_call {A} (c : W → (string + A) * W) :
  raises_incidental (call c).
Proof.
  intros w e w'. unfold call. destruct (c w) as [[name|a] w1]; [|done].
  by intros [= <- _].
Qed.

Lemma incidental_getitem {A} (k : string) (o : option A) :
  incidental_result (getitem k o).
Proof. intros e. destruct o; [done|]. by intros [= <-]. Qed.

Lemma incidental_first {A} (l : list A) : incidental_result (first l).
Proof. intros e. destruct l; [|done]. by intros [= <-]. Qed.

Lemma incidental_answer {A} (r : string + A) : incidental_result (answer r).
Proof. intros e. destruct r; [|done]. by intros [= <-]. Qed.

Lemma incidental_Ok {A} (a : A) : incidental_result (Ok a).
Proof. by intros e. Qed.

End monad.

Create HintDb incidental.

#[local] Hint Resolve raises_incidental_ret raises_incidental_call
  incidental_getitem incidental_first incidental_answer incidental_Ok
  : incidental.

(** Splits a computation into its steps, for [raises_incidental]. *)
#[local] Ltac incidental_steps :=
  repeat first
    [ progress intros
    | solve [eauto with incidental]
    | apply raises_incidental_bind
    | apply raises_incidental_lift
    | match goal with
      | |- raises_incidental (if ?b then _ else _) => destruct b
      | |- raises_incidental (match ?x with _ => _ end) => destruct x
      | |- raises_incidental (let '(_, _) := ?x in _) => destruct x
      | |- incidental_result (if ?b then _ else _) => destruct b
      | |- incidental_result (match ?x with _ => _ end) => destruct x
      end ].

(** ** The subject identifier requested by the [claims] parameter *)

Section authorization.
Context `{!Library, !Userinfo} {W : Type} `{!AuthorizationState W, !Clock W}.

Lemma check_subject_identifier_cases (req : AuthorizationRequest)
    (c : ClaimsRequest) (sub : string) :
  claims req = Some c →
  let a := requested_id_token_sub c in
  let b := requested_userinfo_sub c in
  _check_subject_identifier_matches_requested req sub =
    if truthy a && truthy b && bool_decide (a ≠ b) then
      Err (AuthorizationError
             ("Requested different subject identifier for IDToken and userinfo: "
                +:+ format_json a +:+ " != " +:+ format_json b))
    else if truthy (py_or a b) && bool_decide (JStr sub ≠ py_or a b) then
      Err (AuthorizationError
             ("Requested subject identifier '" +:+ format_json (py_or a b)
                +:+ "' could not be matched"))
    else Ok tt.
Proof.
  intros Hc. unfold _check_subject_identifier_matches_requested. by rewrite Hc.
Qed.

(** The check raises nothing but [AuthorizationError]. *)
Lemma check_subject_identifier_exn (req : AuthorizationRequest) (sub : string)
    (e : exn) :
  _check_subject_identifier_matches_requested req sub = Err e →
  ∃ msg, e = AuthorizationError msg.
Proof.
  unfold _check_subject_identifier_matches_requested.
  destruct (claims req) as [c|]; [|done].
  repeat match goal with
         | |- context [if ?b then _ else _] => destruct b
         end; try done; intros [= <-]; by eexists.
Qed.

Lemma requested_sub_decision (a b : json) (sub : string) (m1 m2 : string) :
  truthy a || truthy b = true →
  (∃ msg,
     (if truthy a && truthy b && bool_decide (a ≠ b) then
        Err (AuthorizationError m1)
      else if truthy (py_or a b) && bool_decide (JStr sub ≠ py_or a b) then
        Err (AuthorizationError m2)
      else Ok tt) = Err (AuthorizationError msg))
  ↔ (truthy a = true ∧ truthy b = true ∧ a ≠ b) ∨ py_or a b ≠ JStr sub.
Proof.
  intros Hreq. unfold py_or.
  destruct (truthy a) eqn:Ha; simpl.
  - destruct (truthy b) eqn:Hb; simpl.
    + case_bool_decide as Hab.
      * split; [by left|by eexists].
      * rewrite Ha. simpl. case_bool_decide as Hs.
        -- split; [right; congruence|by eexists].
        -- split; [by intros [msg ?]|].
           intros [(_ & _ & Hne)|Hne]; [done|]. by destruct Hne.
    + rewrite Ha. simpl. case_bool_decide as Hs.
      * split; [right; congruence|by eexists].
      * split; [by intros [msg ?]|].
        intros [(_ & ? & _)|Hne]; [done|]. by destruct Hne.
  - simpl in Hreq. rewrite Hreq. simpl. case_bool_decide as Hs.
    + split; [right; congruence|by eexists].
    + split; [by intros [msg ?]|].
      intros [(? & _ & _)|Hne]; [done|]. by destruct Hne.
Qed.

Lemma check_subject_identifier_raises (req : AuthorizationRequest)
    (c : ClaimsRequest) (sub : string) :
  claims req = Some c →
  let a := requested_id_token_sub c in
  let b := requested_userinfo_sub c in
  truthy a || truthy b = true →
  (∃ msg, _check_subject_identifier_matches_requested req sub
            = Err (AuthorizationError msg))
  ↔ (truthy a = true ∧ truthy b = true ∧ a ≠ b) ∨ py_or a b ≠ JStr sub.
Proof.
  intros Hc a b Hreq.
  rewrite (check_subject_identifier_cases req c sub Hc).
  by apply requested_sub_decision.
Qed.

Lemma incidental_resolve_extra (extra : extra_claims) (user_id : string)
    (req : AuthorizationRequest) :
  incidental_result (resolve_extra_id_token_claims extra user_id req).
Proof.
  unfold resolve_extra_id_token_claims. destruct extra; try done.
  destruct (client_id req); [done|]. by intros e [= <-].
Qed.

Lemma incidental_requested_claims (req : AuthorizationRequest)
    (response_method : string) :
  incidental_result (_get_requested_claims_in req response_method).
Proof.
  unfold _get_requested_claims_in.
  repeat match goal with
         | |- context [if ?b then _ else _] => destruct b
         | |- context [match ?x with _ => _ end] => destruct x
         end; try done; by intros e [= <-].
Qed.

Lemma incidental_IdToken_new (iss sub aud : string) (iat exp : Z)
    (args : gmap string json) :
  incidental_result (IdToken_new iss sub aud iat exp args).
Proof.
  unfold IdToken_new. case_bool_decide; [by intros e [= <-]|].
  destruct (IdToken_error args); [|done]. by intros e [= <-].
Qed.

Lemma incidental_to_jwt (id_token : gmap string json) (keys : list string)
    (alg : string) :
  incidental_result (to_jwt id_token keys alg).
Proof.
  unfold to_jwt. destruct (to_jwt_error id_token keys alg); [|done].
  by intros e [= <-].
Qed.

Lemma raises_incidental_now : raises_incidental now.
Proof. intros w e w'. unfold now. by destruct (time_time w). Qed.

Lemma raises_incidental_create_signed_id_token (self : Provider)
    (cid sub : string) (user_claims : gmap string json)
    (n code atv : option string) (extra : gmap string json) :
  raises_incidental
    (_create_signed_id_token self cid sub user_claims n code atv extra).
Proof.
  unfold _create_signed_id_token.
  pose proof incidental_IdToken_new. pose proof incidental_to_jwt.
  pose proof raises_incidental_now.
  incidental_steps.
Qed.

Lemma raises_incidental_create_subject_identifier (self : Provider)
    (user_id cid uri : string) :
  raises_incidental (_create_subject_identifier self user_id cid uri).
Proof. unfold _create_subject_identifier. incidental_steps. Qed.

End authorization.

(** ** The claims of an issued ID Token *)

Section id_token.
Context `{!Library, !Userinfo} {W : Type} `{!AuthorizationState W, !Clock W}.

Lemma getitem_inv {A} (k : string) (o : option A) (a : A) :
  getitem k o = Ok a → o = Some a.
Proof. destruct o; [|done]. by intros [= ->]. Qed.

Lemma now_inv (w w' : W) (t : Z) :
  now w = (Ok t, w') → time_time w = (t, w').
Proof. unfold now. destruct (time_time w). by intros [= -> ->]. Qed.

(** [args.update(m)] under [if m:] is the update. *)
Lemma update_union (m args : gmap string json) :
  (if bool_decide (m ≠ ∅) then m ∪ args else args) = m ∪ args.
Proof.
  case_bool_decide as Hm; [done|].
  assert (m = ∅) as -> by (by destruct (decide (m = ∅))).
  by rewrite (left_id_L ∅ (∪)).
Qed.


Lemma truthy_get_Some (o : option string) :
  truthy_get o = true ↔ ∃ s, o = Some s ∧ s ≠ "".
Proof.
  destruct o as [s|]; simpl; [|split; [done|by intros (? & ? & _)]].
  unfold truthy_str. destruct (String.eqb_spec s ""); simpl.
  - split; [done|]. by intros (? & [= <-] & ?).
  - split; [|done]. intros _. by exists s.
Qed.

(** *** What the message keeps *)

Lemma stored_member_Some (k : string) (v : json) :
  v ≠ JNull → v ≠ JStr "" → stored_member k (Some v) = Some v.
Proof.
  intros ? ?. unfold stored_member. simpl. by rewrite option_guard_True.
Qed.

Lemma stored_member_value (k : string) (v : json) :
  stored_member k (Some v)
    = if bool_decide (v = JNull ∨ v = JStr "") then None else Some v.
Proof.
  case_bool_decide as Hv.
  - by destruct Hv as [->| ->].
  - apply stored_member_Some; intros ->; apply Hv; [by left|by right].
Qed.

Lemma stored_member_str (k s : string) :
  stored_member k (Some (JStr s))
    = if bool_decide (s = "") then None else Some (JStr s).
Proof.
  case_bool_decide as Hs.
  - by subst.
  - apply stored_member_Some; congruence.
Qed.

Lemma stored_member_num (k : string) (z : Z) :
  stored_member k (Some (JNum z)) = Some (JNum z).
Proof. by apply stored_member_Some. Qed.

Lemma stored_member_json_of_str (k : string) (o : option string) :
  stored_member k (Some (json_of_str o))
    = s ← o; if bool_decide (s = "") then None else Some (JStr s).
Proof.
  destruct o as [s|]; simpl; [apply stored_member_str|done].
Qed.

(** *** The members passed to [IdToken] *)

Lemma id_token_args_code (alg : string) (user_claims : gmap string json)
    (code atv : option string) (extra : gmap string json) :
  let hash_alg := "HS" +:+ last3 alg in
  let args : gmap string json :=
    if truthy_get code then
      <["c_hash" := json_of_str (left_hash (default "" code) hash_alg)]> ∅
    else ∅ in
  let args :=
    if truthy_get atv then
      <["at_hash" := json_of_str (left_hash (default "" atv) hash_alg)]> args
    else args in
  let args :=
    if bool_decide (user_claims ≠ ∅) then user_claims ∪ args else args in
  (if bool_decide (extra ≠ ∅) then extra ∪ args else args)
    = id_token_args alg user_claims code atv extra.
Proof.
  cbv zeta. rewrite !update_union. unfold id_token_args. do 2 f_equal.
  destruct (truthy_get atv), (truthy_get code);
    rewrite ?insert_empty, ?(left_id_L ∅ (∪)), ?(right_id_L ∅ (∪));
    try done.
Qed.

Lemma id_token_args_other (alg : string) (user_claims : gmap string json)
    (code atv : option string) (extra : gmap string json) (k : string) :
  k ≠ "c_hash" → k ≠ "at_hash" →
  id_token_args alg user_claims code atv extra !! k
    = (extra ∪ user_claims) !! k.
Proof.
  intros Hc Ha. unfold id_token_args. rewrite !lookup_union.
  destruct (truthy_get atv), (truthy_get code);
    rewrite ?lookup_singleton_ne, ?lookup_empty by done;
    by destruct (extra !! k), (user_claims !! k).
Qed.

Lemma id_token_args_given (alg : string) (user_claims : gmap string json)
    (code atv : option string) (extra : gmap string json) (k : string) :
  is_Some ((extra ∪ user_claims) !! k) →
  id_token_args alg user_claims code atv extra !! k
    = (extra ∪ user_claims) !! k.
Proof.
  intros [v Hv]. unfold id_token_args. rewrite (assoc_L (∪)), Hv.
  by apply lookup_union_Some_l.
Qed.

Lemma id_token_args_c_hash (alg : string) (user_claims : gmap string json)
    (code atv : option string) (extra : gmap string json) :
  extra !! "c_hash" = None → user_claims !! "c_hash" = None →
  id_token_args alg user_claims code atv extra !! "c_hash"
    = if truthy_get code then
        Some (json_of_str (left_hash (default "" code) ("HS" +:+ last3 alg)))
      else None.
Proof.
  intros He Hu. unfold id_token_args. rewrite !lookup_union, He, Hu.
  destruct (truthy_get atv), (truthy_get code); by simplify_map_eq.
Qed.

Lemma id_token_args_at_hash (alg : string) (user_claims : gmap string json)
    (code atv : option string) (extra : gmap string json) :
  extra !! "at_hash" = None → user_claims !! "at_hash" = None →
  id_token_args alg user_claims code atv extra !! "at_hash"
    = if truthy_get atv then
        Some (json_of_str (left_hash (default "" atv) ("HS" +:+ last3 alg)))
      else None.
Proof.
  intros He Hu. unfold id_token_args. rewrite !lookup_union, He, Hu.
  destruct (truthy_get atv), (truthy_get code); by simplify_map_eq.
Qed.

(** No reserved claim among the members iff none among the user claims and
    none among the extra claims. *)
Lemma id_token_args_reserved (alg : string) (user_claims : gmap string json)
    (code atv : option string) (extra : gmap string json) :
  without_reserved_claims (id_token_args alg user_claims code atv extra)
  ↔ without_reserved_claims user_claims ∧ without_reserved_claims extra.
Proof.
  assert (Hargs : ∀ k, k ∈ ["iss"; "sub"; "aud"; "iat"; "exp"] →
            id_token_args alg user_claims code atv extra !! k
              = (extra ∪ user_claims) !! k).
  { intros k Hk. apply id_token_args_other; intros ->;
      repeat (apply elem_of_cons in Hk as [Hk|Hk]; [done|]);
      by apply elem_of_nil in Hk. }
  split.
  - intros Hclean. split; intros k Hk; specialize (Hclean k Hk);
      rewrite (Hargs k Hk), lookup_union_None in Hclean; tauto.
  - intros [Hu He] k Hk. rewrite (Hargs k Hk), lookup_union_None.
    split; [by apply He|by apply Hu].
Qed.

Lemma duplicate_keyword (args : gmap string json) :
  ¬ Exists (λ k, is_Some (args !! k)) ["iss"; "sub"; "aud"; "iat"; "exp"]
  ↔ without_reserved_claims args.
Proof.
  rewrite Exists_exists. split.
  - intros Hex k Hk. apply eq_None_not_Some. intros Hsome.
    apply Hex. by exists k.
  - intros Hclean (k & Hk & [v Hv]). by rewrite (Hclean k Hk) in Hv.
Qed.

#[local] Ltac inv_run :=
  repeat match goal with
    | H : (_ ≫= _) _ = (Ok _, _) |- _ =>
        apply bind_inv_Ok in H as (? & ? & ? & ?)
    | H : lift _ _ = (Ok _, _) |- _ => apply lift_inv_Ok in H as [? ->]
    | H : call _ _ = (Ok _, _) |- _ => apply call_inv_Ok in H
    | H : now _ = (Ok _, _) |- _ => apply now_inv in H
    | H : mret _ _ = (Ok _, _) |- _ => apply ret_inv_Ok in H as [? ?]; subst
    | H : getitem _ _ = Ok _ |- _ => apply getitem_inv in H
    | H : (if ?b then _ else _) _ = (Ok _, _) |- _ => destruct b eqn:?
    | H : (let '(_, _) := ?p in _) _ = (Ok _, _) |- _ => destruct p
    end.

(** A signed ID Token: the client, the algorithm and the key; the claims
    passed by keyword as the message keeps them; the two readings of the
    clock; and the other members, which the message keeps unless they have
    no value. *)
Lemma create_signed_id_token_Ok (self : Provider) (cid sub : string)
    (user_claims : gmap string json) (n code atv : option string)
    (extra : gmap string json) (w w' : W) (jws : JWS) :
  _create_signed_id_token self cid sub user_claims n code atv extra w
    = (Ok jws, w') →
  let p := jws_payload jws in
  let args := id_token_args (jws_alg jws) user_claims code atv extra in
  (∃ metadata alg algs,
     clients self !! cid = Some metadata
     ∧ id_token_signing_alg_values_supported (configuration_information self)
         = Some (alg :: algs)
     ∧ jws_alg jws = default alg (id_token_signed_response_alg metadata)
     ∧ jws_keys jws = [signing_key self])
  ∧ (∃ iss, issuer (configuration_information self) = Some iss
          ∧ p !! "iss" = if bool_decide (iss = "") then None
                         else Some (JStr iss))
  ∧ p !! "sub" = (if bool_decide (sub = "") then None else Some (JStr sub))
  ∧ p !! "aud" = (if bool_decide (cid = "") then None
                  else Some (JArr [JStr cid]))
  ∧ (∃ iat exp_now w1,
       time_time w = (iat, w1) ∧ time_time w1 = (exp_now, w')
       ∧ p !! "iat" = Some (JNum iat)
       ∧ p !! "exp" = Some (JNum (exp_now + id_token_lifetime self)))
  ∧ without_reserved_claims args
  ∧ IdToken_error args = None
  ∧ to_jwt_error p [signing_key self] (jws_alg jws) = None
  ∧ p !! "nonce" = (if truthy_get n then Some (JStr (default "" n))
                    else stored_member "nonce" (args !! "nonce"))
  ∧ (∀ k, k ∉ ["iss"; "sub"; "aud"; "iat"; "exp"; "nonce"] →
          p !! k = stored_member k (args !! k)).
Proof.
  unfold _create_signed_id_token. intros Hrun. inv_run.
  match goal with
  | H : to_jwt ?payload _ ?a = Ok _ |- _ =>
      unfold to_jwt in H;
      destruct (to_jwt_error payload _ a) eqn:Hsign; [done|];
      injection H as <-
  end.
  cbn [jws_payload jws_alg jws_keys] in *.
  match goal with
  | H : IdToken_new _ _ _ _ _ ?a = Ok _ |- _ =>
      pose proof id_token_args_code as Hargs;
      cbv zeta in Hargs; rewrite Hargs in H; clear Hargs;
      unfold IdToken_new in H
  end.
  case_bool_decide as Hdup; [done|].
  match goal with
  | H : first ?l = Ok _ |- _ => destruct l; [done|]; injection H as ->
  end.
  match goal with
  | H : match IdToken_error ?a with _ => _ end = Ok _ |- _ =>
      destruct (IdToken_error a) eqn:Herror; [done|]; injection H as <-
  end.
  rewrite duplicate_keyword in Hdup.
  set (args := id_token_args _ user_claims code atv extra) in *.
  assert (Hnonce : ∀ (m : gmap string json) k, k ≠ "nonce" →
            (if truthy_get n then <["nonce" := JStr (default "" n)]> m else m)
              !! k = m !! k).
  { intros m k Hk. destruct (truthy_get n); [|done].
    by rewrite lookup_insert_ne. }
  assert (Hkept : ∀ (m : gmap string json) k, k ≠ "aud" →
            alter (λ v, JArr [v]) "aud" (filter stored m) !! k
              = stored_member k (m !! k)).
  { intros m k Hk. rewrite lookup_alter_ne by done.
    apply map_lookup_filter. }
  repeat apply conj.
  - by do 3 eexists.
  - eexists. split; [done|]. rewrite Hnonce, Hkept by done.
    rewrite lookup_insert_eq. apply stored_member_str.
  - rewrite Hnonce, Hkept by done. rewrite lookup_insert_ne by done.
    rewrite lookup_insert_eq. apply stored_member_str.
  - rewrite Hnonce by done. rewrite lookup_alter_eq, map_lookup_filter.
    do 2 (rewrite lookup_insert_ne by done). rewrite lookup_insert_eq.
    change ((λ v, JArr [v]) <$> stored_member "aud" (Some (JStr cid)) =
            if bool_decide (cid = "") then None else Some (JArr [JStr cid])).
    rewrite stored_member_str. by case_bool_decide.
  - do 3 eexists. repeat split; [done..| |].
    + rewrite Hnonce, Hkept by done.
      do 3 (rewrite lookup_insert_ne by done). rewrite lookup_insert_eq.
      apply stored_member_num.
    + rewrite Hnonce, Hkept by done.
      do 4 (rewrite lookup_insert_ne by done). rewrite lookup_insert_eq.
      apply stored_member_num.
  - done.
  - done.
  - done.
  - destruct (truthy_get n); [by rewrite lookup_insert_eq|].
    rewrite Hkept by done. by do 5 (rewrite lookup_insert_ne by done).
  - intros k Hk.
    assert (Hne : ∀ k', k' ∈ ["iss"; "sub"; "aud"; "iat"; "exp"; "nonce"] →
              k' ≠ k) by (by intros k' Hk' ->).
    rewrite Hnonce, Hkept by (apply not_eq_sym, Hne; rewrite !elem_of_cons; auto 10).
    by do 5 (rewrite lookup_insert_ne
               by (apply Hne; rewrite !elem_of_cons; auto 10)).
Qed.







End id_token.

(** ** The exchange of an authorization code *)

Section token_endpoint.
Context `{!Library, !Userinfo} {W : Type}.
Context {authz : AuthorizationState W} `{!Clock W}.

Lemma bind_now {B} (f : Z → M W B) (w : W) :
  (now ≫= f) w = f (time_time w).1 (time_time w).2.
Proof. unfold mbind, M_bind, now. by destruct (time_time w). Qed.

Lemma get_requested_claims_id_token (req : AuthorizationRequest) :
  _get_requested_claims_in req "id_token" = Ok (requested_id_token_claims req).
Proof.
  unfold _get_requested_claims_in, requested_id_token_claims, claims_member.
  simpl. destruct (claims req) as [c|]; [|done]. simpl.
  destruct (id_token c); [|done]. simpl. by rewrite (right_id_L ∅ (∪)).
Qed.

Lemma get_requested_claims_userinfo (req : AuthorizationRequest) :
  _get_requested_claims_in req "userinfo" = Ok (requested_userinfo_claims req).
Proof.
  unfold _get_requested_claims_in, requested_userinfo_claims, claims_member.
  simpl. destruct (claims req) as [c|]; [|done]. simpl.
  destruct (userinfo c); [|done]. simpl. by rewrite (right_id_L ∅ (∪)).
Qed.

(** With a registered client, a signing algorithm and an issuer, no claim
    passed twice, members that fit the schema of the message and a key for
    the algorithm, the ID Token is signed. *)
Lemma create_signed_id_token_returns (self : Provider) (cid sub : string)
    (user_claims : gmap string json) (n code atv : option string)
    (extra : gmap string json) (w : W) (metadata : ClientMetadata)
    (alg : string) (algs : list string) (iss : string) :
  clients self !! cid = Some metadata →
  id_token_signing_alg_values_supported (configuration_information self)
    = Some (alg :: algs) →
  issuer (configuration_information self) = Some iss →
  without_reserved_claims user_claims →
  without_reserved_claims extra →
  let signing_alg := default alg (id_token_signed_response_alg metadata) in
  IdToken_error (id_token_args signing_alg user_claims code atv extra)
    = None →
  (∀ id_token, to_jwt_error id_token [signing_key self] signing_alg = None) →
  ∃ jws,
    _create_signed_id_token self cid sub user_claims n code atv extra w
      = (Ok jws, (time_time (time_time w).2).2).
Proof.
  intros Hclient Halgs Hiss Huser Hextra signing_alg Herror Hsign.
  unfold _create_signed_id_token.
  rewrite Hclient, Halgs, Hiss.
  do 4 (rewrite bind_lift; cbn [getitem first]).
  rewrite !bind_now, bind_lift.
  pose proof id_token_args_code as Hargs. cbv zeta in Hargs.
  rewrite Hargs. clear Hargs. fold signing_alg.
  unfold IdToken_new. rewrite bool_decide_eq_false_2.
  - rewrite Herror. unfold lift, to_jwt. rewrite Hsign. by eexists.
  - apply duplicate_keyword, id_token_args_reserved. by split.
Qed.

(** Runs [_do_code_exchange] up to the comparison of the redirect URIs. *)
#[local] Ltac run_to_comparison Hverify Hcode Huri Horiginal Houri :=
  unfold _do_code_exchange; rewrite Hverify, Hcode, Huri;
  do 2 (rewrite bind_lift; cbn [getitem]);
  rewrite bind_call, Horiginal, Houri;
  do 2 (rewrite bind_lift; cbn [getitem]).

Lemma code_exchange_mismatch (self : Provider) (request : gmap string string)
    (extra : extra_claims) (code token_uri original_uri : string)
    (original : AuthorizationRequest) (w w1 : W) :
  AccessTokenRequest_verify request = Verified →
  request !! "code" = Some code →
  request !! "redirect_uri" = Some token_uri →
  get_authorization_request_for_code code w = (inr original, w1) →
  redirect_uri original = Some original_uri →
  token_uri ≠ original_uri →
  _do_code_exchange self request extra w =
    (Err (InvalidTokenRequest
            ("Invalid redirect_uri: " +:+ token_uri +:+ " != " +:+ original_uri)
            "invalid_request"), w1).
Proof.
  intros Hverify Hcode Huri Horiginal Houri Hne.
  run_to_comparison Hverify Hcode Huri Horiginal Houri.
  by rewrite bool_decide_eq_true_2.
Qed.

(** C6: in the exchange of an authorization code, a [redirect_uri] of the
    token request that differs from the [redirect_uri] of the authorization
    request retrieved for the code makes the handler raise
    [InvalidTokenRequest]; when the two are equal the exchange proceeds: it
    does not raise [InvalidTokenRequest], and when the collaborators
    answer, no claim is passed twice to the ID Token, its members fit the
    schema of the message and the provider has a key for the signing
    algorithm, it returns the access token, the refresh token and the ID
    Token. *)
Theorem code_exchange_redirect_uri (self : Provider)
    (request : gmap string string) (extra : extra_claims)
    (code token_uri original_uri : string) (original : AuthorizationRequest)
    (w w1 : W) :
  AccessTokenRequest_verify request = Verified →
  request !! "code" = Some code →
  request !! "redirect_uri" = Some token_uri →
  get_authorization_request_for_code code w = (inr original, w1) →
  redirect_uri original = Some original_uri →
  (token_uri ≠ original_uri →
   ∃ msg, _do_code_exchange self request extra w
            = (Err (InvalidTokenRequest msg "invalid_request"), w1))
  ∧ (token_uri = original_uri →
     (∀ msg oauth_error w',
        _do_code_exchange self request extra w
          ≠ (Err (InvalidTokenRequest msg oauth_error), w'))
     ∧ (∀ sub user_id access_token refresh_token w2 w3 w4 w5
          cid metadata alg algs iss claims_map,
          get_subject_identifier_for_code code w1 = (inr sub, w2) →
          get_user_id_for_subject_identifier sub w2 = (inr user_id, w3) →
          exchange_code_for_token code w3 = (inr access_token, w4) →
          create_refresh_token (value access_token) w4
            = (inr refresh_token, w5) →
          resolve_extra_id_token_claims extra user_id original
            = Ok claims_map →
          client_id original = Some cid →
          clients self !! cid = Some metadata →
          id_token_signing_alg_values_supported (configuration_information self)
            = Some (alg :: algs) →
          issuer (configuration_information self) = Some iss →
          without_reserved_claims
            (get_claims_for user_id (requested_id_token_claims original)) →
          without_reserved_claims claims_map →
          let signing_alg :=
            default alg (id_token_signed_response_alg metadata) in
          IdToken_error
            (id_token_args signing_alg
               (get_claims_for user_id (requested_id_token_claims original))
               None (Some (value access_token)) claims_map) = None →
          (∀ id_token,
             to_jwt_error id_token [signing_key self] signing_alg = None) →
          ∃ resp w',
            _do_code_exchange self request extra w = (Ok resp, w')
            ∧ resp !! "access_token" = Some (MStr (value access_token))
            ∧ resp !! "refresh_token" = Some (MStr refresh_token)
            ∧ is_Some (resp !! "id_token"))).
Proof.
  intros Hverify Hcode Huri Horiginal Houri. split.
  - intros Hne. eexists. by eapply code_exchange_mismatch.
  - intros Heq. run_to_comparison Hverify Hcode Huri Horiginal Houri.
    rewrite bool_decide_eq_false_2 by (by intros ?). split.
    + intros msg oauth_error w' Hraised.
      match type of Hraised with
      | ?m _ = _ => assert (raises_incidental m) as Hinc
      end.
      { pose proof incidental_resolve_extra.
        pose proof incidental_requested_claims.
        pose proof raises_incidental_create_signed_id_token.
        incidental_steps. }
      apply (Hinc _ _ _ Hraised).
    + cbv zeta.
      intros sub user_id access_token refresh_token w2 w3 w4 w5 cid metadata
        alg algs iss claims_map Hsub Huser Hexchange Hrefresh Hextra Hcid
        Hclient Halgs Hiss Hclean_user Hclean_extra Herror Hsign.
      destruct (create_signed_id_token_returns self cid sub
                  (get_claims_for user_id (requested_id_token_claims original))
                  (nonce original) None (Some (value access_token)) claims_map
                  w5 metadata alg algs iss Hclient Halgs Hiss
                  Hclean_user Hclean_extra Herror Hsign) as [jws Hsigned].
      do 2 eexists. split.
      * rewrite bind_lift. cbn [getitem].
        rewrite bind_call, Hsub, bind_call, Huser.
        rewrite bind_lift. cbn [getitem].
        rewrite bind_call, Hexchange, bind_call, Hrefresh.
        rewrite bind_lift, Hextra, bind_lift, get_requested_claims_id_token.
        rewrite bind_lift, Hcid. cbn [getitem].
        by rewrite (bind_Ok _ _ _ _ _ Hsigned).
      * unfold _add_access_token_to_response. by simplify_map_eq.
Qed.

(** C9: the redirect URIs are compared before [exchange_code_for_token] is
    called.  When the exchange raises [InvalidTokenRequest] for a mismatch,
    the authorization state is the one that the look-up of the authorization
    request left, unchanged when the look-up reads only: the code is not
    consumed, no access token and no refresh token are created.  The outcome
    is the same with any authorization state that answers that look-up alike,
    whatever its other operations do, so none of them was called. *)
Theorem code_exchange_mismatch_leaves_state (self : Provider)
    (request : gmap string string) (extra : extra_claims)
    (code token_uri original_uri : string) (original : AuthorizationRequest)
    (w w1 : W) :
  AccessTokenRequest_verify request = Verified →
  request !! "code" = Some code →
  request !! "redirect_uri" = Some token_uri →
  get_authorization_request_for_code code w = (inr original, w1) →
  redirect_uri original = Some original_uri →
  token_uri ≠ original_uri →
  (∃ msg, _do_code_exchange self request extra w
            = (Err (InvalidTokenRequest msg "invalid_request"), w1))
  ∧ (w1 = w →
     ∃ msg, _do_code_exchange self request extra w
              = (Err (InvalidTokenRequest msg "invalid_request"), w))
  ∧ (∀ other : AuthorizationState W,
       @get_authorization_request_for_code W other code w = (inr original, w1) →
       @_do_code_exchange _ _ W other _ self request extra w
         = @_do_code_exchange _ _ W authz _ self request extra w).
Proof.
  intros Hverify Hcode Huri Horiginal Houri Hne.
  pose proof (code_exchange_mismatch self request extra code token_uri
                original_uri original w w1 Hverify Hcode Huri Horiginal Houri
                Hne) as Hraised.
  split; [|split].
  - by eexists.
  - intros <-. by eexists.
  - intros other Hother. rewrite Hraised.
    run_to_comparison Hverify Hcode Huri Hother Houri.
    by rewrite bool_decide_eq_true_2.
Qed.

(** ** The userinfo endpoint *)

(** C7: for a userinfo request whose bearer token introspects as active, the
    claims requested from the user-info source are the union of the claims
    that [scope2claims] maps the scope of the token to and of the entries of
    [claims.userinfo] in the original authorization request, each entry of
    [claims.userinfo] with its own metadata; the object returned is built
    from the claims that the source answers for them and carries [sub] equal
    to the [sub] of the introspection. *)
Theorem userinfo_requested_claims (self : Provider) (request : option string)
    (http_headers : option (gmap string string)) (bearer_token : string)
    (introspection : Introspection) (sc sub user_id : string)
    (original : AuthorizationRequest) (w w1 w2 w3 : W) :
  extract_bearer_token_from_http_request request http_headers
    = inr bearer_token →
  introspect_access_token bearer_token w = (inr introspection, w1) →
  active introspection = true →
  introspection_scope introspection = Some sc →
  introspection_sub introspection = Some sub →
  get_user_id_for_subject_identifier sub w1 = (inr user_id, w2) →
  get_authorization_request_for_access_token bearer_token w2
    = (inr original, w3) →
  let scope_claims := scope2claims (split sc) in
  let userinfo_claims := requested_userinfo_claims original in
  let requested := userinfo_claims ∪ scope_claims in
  dom requested = dom scope_claims ∪ dom userinfo_claims
  ∧ (∀ k v, userinfo_claims !! k = Some v → requested !! k = Some v)
  ∧ (∀ k, userinfo_claims !! k = None → requested !! k = scope_claims !! k)
  ∧ handle_userinfo_request self request http_headers w
      = (OpenIDSchema_new sub (get_claims_for user_id requested), w3)
  ∧ (∀ resp,
       OpenIDSchema_new sub (get_claims_for user_id requested) = Ok resp →
       resp !! "sub" = Some (JStr sub)
       ∧ ∀ k, k ≠ "sub" →
              resp !! k = get_claims_for user_id requested !! k).
Proof.
  intros Hbearer Hintro Hactive Hscope Hsub Huser Horiginal
    scope_claims userinfo_claims requested.
  split; [|split; [|split; [|split]]].
  - unfold requested. rewrite dom_union_L. apply (comm_L (∪)).
  - intros k v Hk. unfold requested. by apply lookup_union_Some_l.
  - intros k Hk. unfold requested. by apply lookup_union_r.
  - unfold handle_userinfo_request. rewrite Hbearer.
    rewrite bind_lift. cbn [answer].
    rewrite bind_call, Hintro, Hactive. cbn [negb].
    rewrite Hscope, Hsub. do 2 (rewrite bind_lift; cbn [getitem]).
    rewrite bind_call, Huser, bind_call, Horiginal.
    rewrite bind_lift, get_requested_claims_userinfo.
    rewrite bind_lift. by cbn [getitem].
  - intros resp. unfold OpenIDSchema_new. case_bool_decide; [done|].
    intros [= <-]. split; [apply lookup_insert_eq|].
    intros k Hk. by rewrite lookup_insert_ne.
Qed.

End token_endpoint.

(** ** Requests that pass the validators *)

Section accepted_requests.
Context `{!Library}.

Lemma list_to_set_members (a b : list string) :
  (list_to_set a : gset string) = list_to_set b ↔ ∀ x, x ∈ a ↔ x ∈ b.
Proof. rewrite set_eq. by setoid_rewrite elem_of_list_to_set. Qed.

(** Membership of [frozenset(rt)] in [{frozenset(a) for a in types}]. *)
Lemma response_type_set_registered (rt : list string)
    (types : list (list string)) :
  (list_to_set rt : gset string)
    ∈ (list_to_set (list_to_set <$> types) : gset (gset string))
  ↔ ∃ allowed, allowed ∈ types ∧ ∀ x, x ∈ rt ↔ x ∈ allowed.
Proof.
  rewrite elem_of_list_to_set, list_elem_of_fmap. split.
  - intros (a & Heq & Hin). exists a. split; [done|].
    by apply list_to_set_members.
  - intros (a & Hin & Heq). exists a. split; [|done].
    by apply list_to_set_members.
Qed.

Lemma registered_Ok {A} (provider : Provider) (req : AuthorizationRequest)
    (name : string) (member : ClientMetadata → option A) (a : A) :
  registered provider req name member = Ok a
  ↔ ∃ cid metadata,
      client_id req = Some cid ∧ clients provider !! cid = Some metadata
      ∧ member metadata = Some a.
Proof.
  unfold registered. split.
  - destruct (client_id req) as [cid|]; simpl; [|done].
    destruct (clients provider !! cid) as [metadata|] eqn:Hc; simpl; [|done].
    destruct (member metadata) eqn:Hm; simpl; [|done].
    intros [= <-]. by exists cid, metadata.
  - intros (cid & metadata & -> & Hc & Hm). simpl. rewrite Hc. simpl.
    by rewrite Hm.
Qed.

Lemma client_id_is_known_Ok (provider : Provider)
    (req : AuthorizationRequest) :
  _client_id_is_known provider req = Ok tt
  ↔ ∃ cid, client_id req = Some cid ∧ is_Some (clients provider !! cid).
Proof.
  unfold _client_id_is_known. destruct (client_id req) as [cid|]; simpl.
  - case_bool_decide as Hk.
    + split; [by exists cid|done].
    + split; [done|]. by intros (? & [= <-] & ?).
  - split; [done|]. by intros (? & ? & _).
Qed.

Lemma redirect_uri_validator_cases (provider : Provider)
    (req : AuthorizationRequest) (uri : string) :
  redirect_uri req = Some uri →
  _redirect_uri_is_in_registered_redirect_uris provider req =
    match registered provider req "redirect_uris" redirect_uris with
    | Ok uris =>
        if bool_decide (uri ∈ uris) then Ok tt
        else Err (invalid_authentication_request
                    ("Redirect uri '" +:+ uri +:+ "' is not registered")
                    req None)
    | Err _ => Err (invalid_authentication_request
                      ("Redirect uri '" +:+ uri +:+ "' is not registered")
                      req None)
    end.
Proof.
  intros Huri. unfold _redirect_uri_is_in_registered_redirect_uris.
  rewrite Huri. simpl.
  destruct (registered provider req "redirect_uris" redirect_uris)
    as [uris|x] eqn:Hreg; [done|].
  by destruct (registered_KeyError _ _ _ _ _ Hreg) as [k ->].
Qed.

Lemma response_type_validator_cases (provider : Provider)
    (req : AuthorizationRequest) (rt : list string) :
  response_type req = Some rt →
  _response_type_is_in_registered_response_types provider req =
    match registered provider req "response_types" response_types with
    | Ok types =>
        if bool_decide
             ((list_to_set rt : gset string)
                ∈ (list_to_set (list_to_set <$> types) : gset (gset string)))
        then Ok tt
        else Err (invalid_authentication_request
                    ("Response type '" +:+ String.concat " " rt
                       +:+ "' is not registered")
                    req (Some "invalid_request"))
    | Err _ => Err (invalid_authentication_request
                      ("Response type '" +:+ String.concat " " rt
                         +:+ "' is not registered")
                      req (Some "invalid_request"))
    end.
Proof.
  intros Hrt. unfold _response_type_is_in_registered_response_types.
  rewrite Hrt. simpl.
  destruct (registered provider req "response_types" response_types)
    as [types|x] eqn:Hreg; [done|].
  by destruct (registered_KeyError _ _ _ _ _ Hreg) as [k ->].
Qed.

Lemma scope_difference_empty (sc supported : list string) :
  (list_to_set sc : gset string) ∖ list_to_set supported = ∅
  ↔ ∀ s, s ∈ sc → s ∈ supported.
Proof.
  rewrite set_eq. setoid_rewrite elem_of_difference.
  setoid_rewrite elem_of_list_to_set. split.
  - intros Hd s Hs. destruct (decide (s ∈ supported)) as [|Hn]; [done|].
    exfalso. by apply (not_elem_of_empty (C:=gset string) s), Hd.
  - intros Hall s. split; [|by intros ?%not_elem_of_empty].
    intros [Hs Hn]. exfalso. by apply Hn, Hall.
Qed.

Lemma scope_validator_Ok (provider : Provider) (req : AuthorizationRequest)
    (sc supported : list string) :
  scope req = Some sc →
  scopes_supported (configuration_information provider) = Some supported →
  _requested_scope_is_supported provider req = Ok tt
  ↔ ∀ s, s ∈ sc → s ∈ supported.
Proof.
  intros Hsc Hsup. unfold _requested_scope_is_supported, provider_configuration.
  rewrite Hsc, Hsup. simpl. rewrite <- scope_difference_empty.
  case_bool_decide as Hd.
  - split; [done|]. intros He. destruct (Hd He).
  - by split.
Qed.

Lemma scope_validator_Err (provider : Provider) (req : AuthorizationRequest)
    (x : exn) :
  _requested_scope_is_supported provider req = Err x →
  (∃ k, x = KeyError k)
  ∨ ∃ e, x = Raise_InvalidAuthenticationRequest e
         ∧ oauth_error e = Some "invalid_scope" ∧ request e = req.
Proof.
  unfold _requested_scope_is_supported.
  destruct (scope req) as [sc|]; simpl; [|intros [= <-]; left; by eexists].
  destruct (scopes_supported (provider_configuration provider)); simpl;
    [|intros [= <-]; left; by eexists].
  case_bool_decide; [|done]. intros [= <-]. right. by eexists.
Qed.

Lemma schema_verify_Ok (req : AuthorizationRequest) :
  _authorization_request_verify req = Ok tt
  ↔ AuthorizationRequest_verify req = Verified.
Proof.
  unfold _authorization_request_verify.
  by destruct (AuthorizationRequest_verify req).
Qed.

Lemma run_validators_cons (validator : AuthorizationRequest → result unit)
    (rest : list (AuthorizationRequest → result unit))
    (req : AuthorizationRequest) :
  run_validators (validator :: rest) req =
    match validator req with
    | Ok _ => run_validators rest req
    | Err e => Err e
    end.
Proof. simpl. by destruct (validator req). Qed.

Lemma run_validators_Ok (validators : list (AuthorizationRequest → result unit))
    (req : AuthorizationRequest) :
  run_validators validators req = Ok tt
  ↔ Forall (λ validator, validator req = Ok tt) validators.
Proof.
  induction validators as [|validator rest IH]; [by split|].
  rewrite run_validators_cons, Forall_cons, <- IH.
  destruct (validator req) as [[]|e]; [by split; [|intros [_ ?]]|].
  split; [done|by intros [? _]].
Qed.

Lemma result_bind_Ok {A B} (m : result A) (f : A → result B) (b : B) :
  m ≫= f = Ok b ↔ ∃ a, m = Ok a ∧ f a = Ok b.
Proof.
  destruct m as [a|e]; simpl.
  - split; [by exists a|by intros (? & [= <-] & ?)].
  - split; [done|by intros (? & ? & _)].
Qed.

Lemma result_bind_Err {A B} (m : result A) (f : A → result B) (e : exn) :
  m ≫= f = Err e ↔ m = Err e ∨ ∃ a, m = Ok a ∧ f a = Err e.
Proof.
  destruct m as [a|e']; simpl.
  - split; [intros ?; right; by exists a|by intros [?|(? & [= <-] & ?)]].
  - split; [intros [= ->]; by left|by intros [[= ->]|(? & ? & _)]].
Qed.

Lemma parse_authentication_request_Ok (self : Provider) (body : string)
    (http_headers : option (gmap string string))
    (req : AuthorizationRequest) :
  parse_authentication_request self body http_headers = Ok req
  ↔ AuthorizationRequest_deserialize body = inr req
    ∧ Forall (λ validator, validator req = Ok tt)
        (authentication_request_validators self).
Proof.
  rewrite <- run_validators_Ok. unfold parse_authentication_request. split.
  - intros (r & Hd & Hrest)%result_bind_Ok.
    apply result_bind_Ok in Hrest as ([] & Hrun & [= ->]).
    by destruct (AuthorizationRequest_deserialize body); simplify_eq.
  - intros [-> Hrun]. apply result_bind_Ok. exists req. split; [done|].
    apply result_bind_Ok. by exists tt.
Qed.

(** X1: [parse_authentication_request] returns a request exactly when the
    body deserialises to it and it passes the six checks: the schema
    verifies, the client is registered, the redirect URI is one of the
    client's registered redirect URIs, the response type is, as a set, one
    of the client's registered response types, it is not the list
    [['id_token']] together with a [claims.userinfo] member, and every
    requested scope is among [scopes_supported]. *)
Theorem parse_authentication_request_accepts (self : Provider)
    (request_body : string) (http_headers : option (gmap string string))
    (auth_req : AuthorizationRequest) :
  parse_authentication_request self request_body http_headers = Ok auth_req
  ↔ AuthorizationRequest_deserialize request_body = inr auth_req
    ∧ AuthorizationRequest_verify auth_req = Verified
    ∧ ∃ cid metadata uri uris rt types allowed sc supported,
        client_id auth_req = Some cid
        ∧ clients self !! cid = Some metadata
        ∧ redirect_uri auth_req = Some uri
        ∧ redirect_uris metadata = Some uris ∧ uri ∈ uris
        ∧ response_type auth_req = Some rt
        ∧ response_types metadata = Some types
        ∧ allowed ∈ types ∧ (∀ x, x ∈ rt ↔ x ∈ allowed)
        ∧ ¬ (rt = ["id_token"] ∧ contains_userinfo_claims auth_req = true)
        ∧ scope auth_req = Some sc
        ∧ scopes_supported (configuration_information self) = Some supported
        ∧ ∀ s, s ∈ sc → s ∈ supported.
Proof.
  rewrite parse_authentication_request_Ok.
  unfold authentication_request_validators. rewrite !Forall_cons, schema_verify_Ok.
  split.
  - intros (Hd & Hv & Hknown & Huri & Hrt & Hui & Hsc & _).
    split; [done|]. split; [done|].
    apply client_id_is_known_Ok in Hknown as (cid & Hcid & [metadata Hm]).
    destruct (redirect_uri auth_req) as [uri|] eqn:Hu;
      [|by unfold _redirect_uri_is_in_registered_redirect_uris in Huri;
           rewrite Hu in Huri].
    rewrite (redirect_uri_validator_cases _ _ uri Hu) in Huri.
    destruct (registered self auth_req "redirect_uris" redirect_uris)
      as [uris|] eqn:Hreg; [|done].
    apply registered_Ok in Hreg as (cid' & metadata' & Hcid' & Hm' & Huris).
    rewrite Hcid in Hcid'. injection Hcid' as <-.
    rewrite Hm in Hm'. injection Hm' as <-.
    case_bool_decide as Hin; [|done].
    destruct (response_type auth_req) as [rt|] eqn:Hr;
      [|by unfold _response_type_is_in_registered_response_types in Hrt;
           rewrite Hr in Hrt].
    rewrite (response_type_validator_cases _ _ rt Hr) in Hrt.
    destruct (registered self auth_req "response_types" response_types)
      as [types|] eqn:Hreg; [|done].
    apply registered_Ok in Hreg as (cid' & metadata' & Hcid' & Hm' & Htypes).
    rewrite Hcid in Hcid'. injection Hcid' as <-.
    rewrite Hm in Hm'. injection Hm' as <-.
    case_bool_decide as Hset; [|done].
    apply response_type_set_registered in Hset as (allowed & Hallowed & Hsame).
    rewrite (userinfo_claims_validator _ rt Hr) in Hui.
    destruct (scope auth_req) as [sc|] eqn:Hs;
      [|by unfold _requested_scope_is_supported in Hsc; rewrite Hs in Hsc].
    destruct (scopes_supported (configuration_information self))
      as [supported|] eqn:Hsup;
      [|by unfold _requested_scope_is_supported, provider_configuration in Hsc;
           rewrite Hs, Hsup in Hsc].
    pose proof (proj1 (scope_validator_Ok _ _ sc supported Hs Hsup) Hsc)
      as Hall.
    exists cid, metadata, uri, uris, rt, types, allowed, sc, supported.
    repeat (split; [done|]). split; [|done].
    intros [-> Hc]. rewrite Hc in Hui. by rewrite bool_decide_eq_true_2 in Hui.
  - intros (Hd & Hv & cid & metadata & uri & uris & rt & types & allowed & sc
            & supported & Hcid & Hm & Hu & Huris & Hin & Hr & Htypes
            & Hallowed & Hsame & Hui & Hs & Hsup & Hsc).
    split; [done|]. split; [done|]. split.
    { apply client_id_is_known_Ok. by exists cid. }
    split.
    { rewrite (redirect_uri_validator_cases _ _ uri Hu).
      rewrite (proj2 (registered_Ok self auth_req "redirect_uris"
                        redirect_uris uris)) by (by exists cid, metadata).
      by rewrite bool_decide_eq_true_2. }
    split.
    { rewrite (response_type_validator_cases _ _ rt Hr).
      rewrite (proj2 (registered_Ok self auth_req "response_types"
                        response_types types)) by (by exists cid, metadata).
      rewrite bool_decide_eq_true_2; [done|].
      apply response_type_set_registered. by exists allowed. }
    split.
    { rewrite (userinfo_claims_validator _ rt Hr).
      case_bool_decide as Hid; [|done].
      destruct (contains_userinfo_claims auth_req); [|done].
      by destruct Hui. }
    split; [|done]. by apply (scope_validator_Ok _ _ sc supported).
Qed.

Lemma run_validators_Err (validators : list (AuthorizationRequest → result unit))
    (req : AuthorizationRequest) (x : exn) :
  run_validators validators req = Err x →
  ∃ failing, failing ∈ validators ∧ failing req = Err x.
Proof.
  induction validators as [|validator rest IH]; [done|].
  rewrite run_validators_cons.
  destruct (validator req) as [[]|e] eqn:Hv.
  - intros (failing & Hin & Hfail)%IH. exists failing. split; [by right|done].
  - intros [= <-]. exists validator. split; [by left|done].
Qed.

Lemma parse_authentication_request_Err (self : Provider) (body : string)
    (http_headers : option (gmap string string)) (x : exn) :
  parse_authentication_request self body http_headers = Err x →
  (∃ name, AuthorizationRequest_deserialize body = inl name
           ∧ x = External name)
  ∨ ∃ req failing,
      AuthorizationRequest_deserialize body = inr req
      ∧ failing ∈ authentication_request_validators self
      ∧ failing req = Err x.
Proof.
  unfold parse_authentication_request.
  intros [Hd|(r & Hd & Hrest)]%result_bind_Err.
  - left. destruct (AuthorizationRequest_deserialize body) as [name|];
      [|done]. injection Hd as <-. by exists name.
  - right. apply result_bind_Err in Hrest as [Hrun|([] & _ & ?)]; [|done].
    apply run_validators_Err in Hrun as (failing & Hin & Hfail).
    exists r, failing.
    by destruct (AuthorizationRequest_deserialize body); simplify_eq.
Qed.

Lemma client_id_is_known_Err (provider : Provider)
    (req : AuthorizationRequest) (e : InvalidAuthenticationRequest) :
  _client_id_is_known provider req = Err (Raise_InvalidAuthenticationRequest e) →
  oauth_error e = Some "unauthorized_client" ∧ request e = req
  ∧ ∃ cid, client_id req = Some cid ∧ clients provider !! cid = None.
Proof.
  unfold _client_id_is_known. destruct (client_id req) as [cid|]; [|done].
  simpl. case_bool_decide as Hk; [done|]. intros [= <-].
  split; [done|]. split; [done|]. exists cid. split; [done|].
  by apply eq_None_not_Some.
Qed.

Lemma response_type_validator_Err (provider : Provider)
    (req : AuthorizationRequest) (e : InvalidAuthenticationRequest) :
  _response_type_is_in_registered_response_types provider req
    = Err (Raise_InvalidAuthenticationRequest e) →
  oauth_error e = Some "invalid_request" ∧ request e = req.
Proof.
  destruct (response_type req) as [rt|] eqn:Hrt.
  - rewrite (response_type_validator_cases _ _ rt Hrt).
    destruct (registered provider req "response_types" response_types);
      [case_bool_decide; [done|]|]; by intros [= <-].
  - unfold _response_type_is_in_registered_response_types. by rewrite Hrt.
Qed.

Lemma userinfo_claims_validator_Err (req : AuthorizationRequest)
    (e : InvalidAuthenticationRequest) :
  _userinfo_claims_only_specified_when_access_token_is_issued req
    = Err (Raise_InvalidAuthenticationRequest e) →
  oauth_error e = Some "invalid_request" ∧ request e = req.
Proof.
  destruct (response_type req) as [rt|] eqn:Hrt.
  - rewrite (userinfo_claims_validator _ rt Hrt).
    destruct (_ && _); [|done]. by intros [= <-].
  - unfold _userinfo_claims_only_specified_when_access_token_is_issued.
    by rewrite Hrt.
Qed.

Lemma scope_validator_unsupported (provider : Provider)
    (req : AuthorizationRequest) (e : InvalidAuthenticationRequest) :
  _requested_scope_is_supported provider req
    = Err (Raise_InvalidAuthenticationRequest e) →
  ∃ sc supported s,
    scope req = Some sc
    ∧ scopes_supported (configuration_information provider) = Some supported
    ∧ s ∈ sc ∧ s ∉ supported.
Proof.
  unfold _requested_scope_is_supported, provider_configuration.
  destruct (scope req) as [sc|]; [|done].
  destruct (scopes_supported (configuration_information provider))
    as [supported|]; [|done].
  simpl. case_bool_decide as Hd; [|done]. intros _.
  apply set_choose_L in Hd as [s Hs].
  apply elem_of_difference in Hs as [Hin Hout].
  rewrite elem_of_list_to_set in Hin. rewrite elem_of_list_to_set in Hout.
  by exists sc, supported, s.
Qed.

(** X2: every [InvalidAuthenticationRequest] that
    [parse_authentication_request] raises carries the parsed request, and its
    [oauth_error] is [invalid_request], [unauthorized_client],
    [invalid_scope] or none.  [unauthorized_client] means that the client
    of the request is not registered; no [oauth_error] means that the check
    of the redirect URI against the registered ones failed, and then
    [to_error_url] gives no redirect; [invalid_scope] means that some
    requested scope is not among [scopes_supported]. *)
Theorem parse_authentication_request_errors (self : Provider)
    (request_body : string) (http_headers : option (gmap string string))
    (e : InvalidAuthenticationRequest) :
  parse_authentication_request self request_body http_headers
    = Err (Raise_InvalidAuthenticationRequest e) →
  AuthorizationRequest_deserialize request_body = inr (request e)
  ∧ oauth_error e ∈ [ None; Some "invalid_request";
                      Some "unauthorized_client"; Some "invalid_scope" ]
  ∧ (oauth_error e = Some "unauthorized_client" →
     ∃ cid, client_id (request e) = Some cid ∧ clients self !! cid = None)
  ∧ (oauth_error e = None →
     _redirect_uri_is_in_registered_redirect_uris self (request e)
       = Err (Raise_InvalidAuthenticationRequest e)
     ∧ to_error_url e = Ok None)
  ∧ (oauth_error e = Some "invalid_scope" →
     ∃ sc supported s,
       scope (request e) = Some sc
       ∧ scopes_supported (configuration_information self) = Some supported
       ∧ s ∈ sc ∧ s ∉ supported).
Proof.
  intros [(name & _ & [=])|(req & failing & Hd & Hin & Hfail)]
    %parse_authentication_request_Err.
  unfold authentication_request_validators in Hin.
  rewrite !elem_of_cons, elem_of_nil in Hin.
  assert (Hunknown : oauth_error e = None → to_error_url e = Ok None).
  { intros Ho. apply to_error_url_unknown. rewrite Ho. apply andb_false_r. }
  destruct Hin as [->|[->|[->|[->|[->|[->|[]]]]]]].
  - apply schema_error in Hfail as [Ho <-].
    split; [done|]. rewrite Ho, !elem_of_cons.
    split; [auto 7|]. by split; [|split].
  - apply client_id_is_known_Err in Hfail as (Ho & <- & Hclient).
    split; [done|]. rewrite Ho, !elem_of_cons.
    split; [auto 7|]. by split; [|split].
  - pose proof Hfail as Hraised.
    apply unregistered_redirect_uri_error in Hfail as [Ho <-].
    split; [done|]. rewrite !elem_of_cons.
    split; [auto 7|]. rewrite Ho at 1 3. split; [done|]. split; [|done].
    intros _. split; [done|by apply Hunknown].
  - apply response_type_validator_Err in Hfail as [Ho <-].
    split; [done|]. rewrite Ho, !elem_of_cons.
    split; [auto 7|]. by split; [|split].
  - apply userinfo_claims_validator_Err in Hfail as [Ho <-].
    split; [done|]. rewrite Ho, !elem_of_cons.
    split; [auto 7|]. by split; [|split].
  - pose proof (scope_validator_unsupported _ _ _ Hfail) as Hscope.
    apply scope_validator_Err in Hfail
      as [[k [=]]|(e' & [= <-] & Ho & <-)].
    split; [done|]. rewrite Ho, !elem_of_cons.
    split; [auto 7|]. by split; [|split].
Qed.

(** X3: the validator of the registered response types compares sets: a
    request passes exactly when its client is registered with a response
    type that has the same members as the requested one, so the order of the
    members and their repetition do not matter, and two requests of the same
    client with the same members get the same verdict.  A request that does
    not pass is refused with [invalid_request] and the message that names
    the requested response type. *)
Theorem response_type_validator_compares_sets (provider : Provider)
    (req : AuthorizationRequest) (rt : list string) :
  response_type req = Some rt →
  (_response_type_is_in_registered_response_types provider req = Ok tt
   ↔ ∃ cid metadata types allowed,
       client_id req = Some cid ∧ clients provider !! cid = Some metadata
       ∧ response_types metadata = Some types ∧ allowed ∈ types
       ∧ ∀ x, x ∈ rt ↔ x ∈ allowed)
  ∧ (∀ req' rt',
       response_type req' = Some rt' → client_id req' = client_id req →
       (∀ x, x ∈ rt' ↔ x ∈ rt) →
       _response_type_is_in_registered_response_types provider req' = Ok tt
       ↔ _response_type_is_in_registered_response_types provider req = Ok tt)
  ∧ (_response_type_is_in_registered_response_types provider req ≠ Ok tt →
     _response_type_is_in_registered_response_types provider req
     = Err (invalid_authentication_request
              ("Response type '" +:+ String.concat " " rt
                 +:+ "' is not registered")
              req (Some "invalid_request"))).
Proof.
  intros Hrt.
  assert (Hpass : ∀ r l, response_type r = Some l →
    _response_type_is_in_registered_response_types provider r = Ok tt
    ↔ ∃ cid metadata types allowed,
        client_id r = Some cid ∧ clients provider !! cid = Some metadata
        ∧ response_types metadata = Some types ∧ allowed ∈ types
        ∧ ∀ x, x ∈ l ↔ x ∈ allowed).
  { intros r l Hl. rewrite (response_type_validator_cases _ _ l Hl).
    destruct (registered provider r "response_types" response_types)
      as [types|x] eqn:Hreg.
    - apply registered_Ok in Hreg as (cid & metadata & Hcid & Hm & Htypes).
      case_bool_decide as Hset.
      + apply response_type_set_registered in Hset as (allowed & Hin & Hsame).
        split; [|done]. intros _. by exists cid, metadata, types, allowed.
      + split; [done|].
        intros (cid' & metadata' & types' & allowed & Hcid' & Hm' & Htypes'
                & Hin & Hsame).
        destruct Hset. apply response_type_set_registered. exists allowed.
        split; [|done]. congruence.
    - split; [done|].
      intros (cid & metadata & types & allowed & Hcid & Hm & Htypes & _).
      assert (registered provider r "response_types" response_types
              = Ok types) as Hok
        by (apply registered_Ok; by exists cid, metadata).
      congruence. }
  split; [by apply Hpass|]. split.
  - intros req' rt' Hrt' Hcid Hsame.
    rewrite (Hpass req' rt' Hrt'), (Hpass req rt Hrt), Hcid.
    by setoid_rewrite Hsame.
  - rewrite (response_type_validator_cases _ _ rt Hrt).
    destruct (registered provider req "response_types" response_types);
      [|done].
    by case_bool_decide.
Qed.

(** X4: a provider built by [Provider.__init__] has [scopes_supported], the
    given one or else [['openid']]; a request with a scope passes the scope
    check exactly when every requested scope is among them (as sets: order
    and repetition do not matter), and is refused with [invalid_scope]
    otherwise.  With the default, only [openid] may be requested. *)
Theorem requested_scope_after_init (key : string) (conf : Configuration)
    (cl : gmap string ClientMetadata) (lifetime : option Z)
    (req : AuthorizationRequest) (sc : list string) :
  scope req = Some sc →
  let self := Provider_init key conf cl lifetime in
  let supported := default ["openid"] (scopes_supported conf) in
  (_requested_scope_is_supported self req = Ok tt
   ↔ ∀ s, s ∈ sc → s ∈ supported)
  ∧ (_requested_scope_is_supported self req ≠ Ok tt →
     ∃ e, _requested_scope_is_supported self req
          = Err (Raise_InvalidAuthenticationRequest e)
          ∧ oauth_error e = Some "invalid_scope" ∧ request e = req)
  ∧ (scopes_supported conf = None →
     _requested_scope_is_supported self req = Ok tt
     ↔ ∀ s, s ∈ sc → s = "openid").
Proof.
  intros Hsc self supported.
  assert (Hsup : scopes_supported (configuration_information self)
                 = Some supported) by done.
  pose proof (scope_validator_Ok self req sc supported Hsc Hsup) as Hok.
  split; [done|]. split.
  - unfold _requested_scope_is_supported, provider_configuration.
    rewrite Hsc, Hsup. simpl. case_bool_decide; [|done]. intros _.
    by eexists.
  - intros Hnone. rewrite Hok. unfold supported. rewrite Hnone. simpl.
    by setoid_rewrite list_elem_of_singleton.
Qed.

End accepted_requests.

(** ** What the authorization endpoint issues *)

(** Inverts a run that returned, step by step. *)
#[local] Ltac run_inv :=
  repeat match goal with
    | H : (_ ≫= _) _ = (Ok _, _) |- _ =>
        apply bind_inv_Ok in H as (? & ? & ? & ?)
    | H : lift _ _ = (Ok _, _) |- _ => apply lift_inv_Ok in H as [? ->]
    | H : call _ _ = (Ok _, _) |- _ => apply call_inv_Ok in H
    | H : now _ = (Ok _, _) |- _ => apply now_inv in H
    | H : mret _ _ = (Ok _, _) |- _ => apply ret_inv_Ok in H as [? ?]; subst
    | H : getitem _ _ = Ok _ |- _ => apply getitem_inv in H
    | H : (if ?b then _ else _) _ = (Ok _, _) |- _ => destruct b eqn:?
    | H : (let '(_, _) := ?p in _) _ = (Ok _, _) |- _ => destruct p
    end.

(** Identifies the results of a look-up made twice. *)
#[local] Ltac same_lookups :=
  repeat match goal with
    | H1 : ?a = Some ?x, H2 : ?a = Some ?y |- _ =>
        rewrite H1 in H2; injection H2 as <-
    end.

Section issuing.
Context `{!Library, !Userinfo} {W : Type}.
Context {authz : AuthorizationState W} `{!Clock W}.

(** The payload of a signed ID Token: the subject identifier, the nonce of
    the request over the extra claims over the user claims over the hashes,
    each as the message keeps it, and nothing else beside the claims passed
    by keyword. *)
Lemma create_signed_id_token_payload (self : Provider) (cid sub : string)
    (user_claims : gmap string json) (n code atv : option string)
    (extra : gmap string json) (w w' : W) (jws : JWS) :
  _create_signed_id_token self cid sub user_claims n code atv extra w
    = (Ok jws, w') →
  let p := jws_payload jws in
  let given := extra ∪ user_claims in
  let hash_alg := "HS" +:+ last3 (jws_alg jws) in
  p !! "sub" = (if bool_decide (sub = "") then None else Some (JStr sub))
  ∧ (truthy_get n = true → p !! "nonce" = JStr <$> n)
  ∧ (∀ k v, given !! k = Some v → k ≠ "nonce" ∨ truthy_get n = false →
       p !! k = stored_member k (Some v))
  ∧ (given !! "c_hash" = None →
     p !! "c_hash" =
       if truthy_get code then
         match left_hash (default "" code) hash_alg with
         | Some h => if bool_decide (h = "") then None else Some (JStr h)
         | None => None
         end
       else None)
  ∧ (given !! "at_hash" = None →
     p !! "at_hash" =
       if truthy_get atv then
         match left_hash (default "" atv) hash_alg with
         | Some h => if bool_decide (h = "") then None else Some (JStr h)
         | None => None
         end
       else None)
  ∧ ∀ k, given !! k = None → k ≠ "nonce" ∨ truthy_get n = false →
         k ∉ ["iss"; "sub"; "aud"; "iat"; "exp"; "c_hash"; "at_hash"] →
         p !! k = None.
Proof.
  intros Hrun.
  destruct (create_signed_id_token_Ok _ _ _ _ _ _ _ _ _ _ _ Hrun)
    as (_ & _ & Hsub & _ & _ & Hclean & _ & _ & Hnonce & Hother).
  apply id_token_args_reserved in Hclean as [Huser Hextra].
  assert (Hfresh : ∀ k, k ∈ ["iss"; "sub"; "aud"; "iat"; "exp"] →
            (extra ∪ user_claims) !! k = None).
  { intros k Hk. apply lookup_union_None. split; [by apply Hextra|].
    by apply Huser. }
  assert (Hkey : ∀ k, k ≠ "nonce" ∨ truthy_get n = false →
            k ∉ ["iss"; "sub"; "aud"; "iat"; "exp"] →
            jws_payload jws !! k
              = stored_member k
                  (id_token_args (jws_alg jws) user_claims code atv extra
                     !! k)).
  { intros k Hfree Hk. destruct (decide (k = "nonce")) as [->|Hne].
    - destruct Hfree as [|Hn]; [done|]. by rewrite Hnonce, Hn.
    - apply Hother. rewrite !elem_of_cons in Hk. rewrite !elem_of_cons.
      tauto. }
  assert (Hhash : ∀ k (o : option string),
            stored_member k (Some (json_of_str o))
              = match o with
                | Some h => if bool_decide (h = "") then None
                            else Some (JStr h)
                | None => None
                end).
  { intros k o. rewrite stored_member_json_of_str. by destruct o. }
  cbv zeta. split; [done|]. split; [|split; [|split; [|split]]].
  - intros Hn. rewrite Hnonce, Hn. by destruct n.
  - intros k v Hk Hfree. rewrite Hkey; [|done|].
    + by rewrite id_token_args_given, Hk by (by rewrite Hk).
    + intros Hin. by rewrite (Hfresh k Hin) in Hk.
  - intros [He Hu]%lookup_union_None.
    rewrite Hkey; [|by left|].
    + rewrite id_token_args_c_hash by done.
      destruct (truthy_get code); [apply Hhash|done].
    + rewrite !elem_of_cons, elem_of_nil. by intros [|[|[|[|[|]]]]].
  - intros [He Hu]%lookup_union_None.
    rewrite Hkey; [|by left|].
    + rewrite id_token_args_at_hash by done.
      destruct (truthy_get atv); [apply Hhash|done].
    + rewrite !elem_of_cons, elem_of_nil. by intros [|[|[|[|[|]]]]].
  - intros k Hk Hfree Hout. rewrite Hkey; [|done|].
    + rewrite id_token_args_other, Hk; [done| |].
      * intros ->. apply Hout. rewrite !elem_of_cons. auto 10.
      * intros ->. apply Hout. rewrite !elem_of_cons. auto 10.
    + intros Hin. apply Hout. rewrite !elem_of_cons in *. tauto.
Qed.

(** X5: the members of the response of [authorize] follow the response
    type of the request: [code] is there exactly when [code] is a member of
    it, [access_token], [token_type] and [expires_in] exactly when [token]
    is, [id_token] exactly when [id_token] is; [state] is the state of the
    request, there exactly when the request has one; and the response has no
    other member. *)
Theorem authorize_response_members (self : Provider)
    (req : AuthorizationRequest) (user_id : string) (extra : extra_claims)
    (w w' : W) (resp : gmap string member) :
  authorize self req user_id extra w = (Ok resp, w') →
  ∃ rt,
    response_type req = Some rt
    ∧ (is_Some (resp !! "code") ↔ "code" ∈ rt)
    ∧ (is_Some (resp !! "access_token") ↔ "token" ∈ rt)
    ∧ (is_Some (resp !! "token_type") ↔ "token" ∈ rt)
    ∧ (is_Some (resp !! "expires_in") ↔ "token" ∈ rt)
    ∧ (is_Some (resp !! "id_token") ↔ "id_token" ∈ rt)
    ∧ resp !! "state" = MStr <$> state req
    ∧ ∀ k, is_Some (resp !! k) →
           k ∈ ["code"; "access_token"; "token_type"; "expires_in";
                "id_token"; "state"].
Proof.
  unfold authorize. intros Hrun. run_inv.
  all: same_lookups.
  all: repeat match goal with
         | H : bool_decide _ = true |- _ => apply bool_decide_eq_true in H
         | H : bool_decide _ = false |- _ => apply bool_decide_eq_false in H
         end.
  all: unfold _add_access_token_to_response.
  all: eexists; split; [eassumption|].
  all: destruct (state req) as [st|]; simpl.
  all: repeat (split; [simplify_map_eq;
                       first [ done
                             | split; [done|intros _; by eexists]
                             | split; [by intros [? ?]|done] ]|]).
  all: intros k Hk; rewrite ?lookup_insert_is_Some', lookup_empty in Hk.
  all: rewrite !elem_of_cons.
  all: destruct_or?; subst; auto 10; by destruct Hk.
Qed.
(** X6: the ID Token that [authorize] issues is about the subject identifier
    derived for the user, the client and the redirect URI.  The user claims
    are the ones the user-info source answers for the claims requested under
    [claims.id_token], together with the claims of the scope exactly when the
    response type has a single member.  An extra claim wins over a user claim
    of the same name and a non-empty nonce of the request wins over both: the
    payload has the winning claim as the message keeps it, that is, unless
    its value is [None] or the empty string, which the message leaves out.
    Beside these, the claims passed by keyword and the two hashes the payload
    has no claim. *)
Theorem authorize_id_token_payload (self : Provider)
    (req : AuthorizationRequest) (user_id : string) (extra : extra_claims)
    (w w' : W) (resp : gmap string member) (jws : JWS) :
  authorize self req user_id extra w = (Ok resp, w') →
  resp !! "id_token" = Some (MJws jws) →
  ∃ cid uri sub w1 rt given,
    client_id req = Some cid ∧ redirect_uri req = Some uri
    ∧ _create_subject_identifier self user_id cid uri w = (Ok sub, w1)
    ∧ response_type req = Some rt
    ∧ resolve_extra_id_token_claims extra user_id req = Ok given
    ∧ let requested :=
        if bool_decide (length rt = 1%nat) then
          scope2claims (default [] (scope req)) ∪ requested_id_token_claims req
        else requested_id_token_claims req in
      let user_claims := get_claims_for user_id requested in
      let p := jws_payload jws in
      p !! "sub" = (if bool_decide (sub = "") then None else Some (JStr sub))
      ∧ (truthy_get (nonce req) = true → p !! "nonce" = JStr <$> nonce req)
      ∧ (∀ k v, given !! k = Some v →
           k ≠ "nonce" ∨ truthy_get (nonce req) = false →
           p !! k = if bool_decide (v = JNull ∨ v = JStr "") then None
                    else Some v)
      ∧ (∀ k v, given !! k = None → user_claims !! k = Some v →
           k ≠ "nonce" ∨ truthy_get (nonce req) = false →
           p !! k = if bool_decide (v = JNull ∨ v = JStr "") then None
                    else Some v)
      ∧ (∀ k, given !! k = None → user_claims !! k = None →
           k ∉ ["iss"; "sub"; "aud"; "iat"; "exp"; "nonce"; "c_hash";
                "at_hash"] →
           p !! k = None).
Proof.
  unfold authorize. intros Hrun Hjws. run_inv.
  all: same_lookups.
  all: unfold _add_access_token_to_response in *.
  all: destruct (state req); simplify_map_eq.
  all: match goal with
       | H : _get_requested_claims_in _ _ = Ok _ |- _ =>
           rewrite get_requested_claims_id_token in H; injection H as <-
       end.
  all: match goal with
       | H : _create_signed_id_token _ _ _ _ _ _ _ _ _ = (Ok _, _) |- _ =>
           destruct (create_signed_id_token_payload _ _ _ _ _ _ _ _ _ _ _ H)
             as (Hsub & Hnonce & Hgiven & _ & _ & Hnone)
       end.
  all: do 6 eexists.
  all: repeat (split; [eassumption|]).
  all: match goal with
       | H : bool_decide (length _ = 1%nat) = _ |- _ => rewrite H
       end.
  all: try match goal with
           | H : scope _ = Some _ |- _ => rewrite H; cbn [default]
           end.
  all: split; [|split].
  all: try (intros k v Hk Hfree; rewrite <- (stored_member_value k);
            apply Hgiven; [|done]; by apply lookup_union_Some_l).
  all: try (intros k v Hk Hu Hfree; rewrite <- (stored_member_value k);
            apply Hgiven; [|done]; by rewrite lookup_union_r).
  all: intros k Hk Hu Hout; apply Hnone;
         [by apply lookup_union_None| |];
         rewrite !elem_of_cons in Hout; rewrite ?elem_of_cons; tauto.
Qed.

(** The steps of [authorize] after the check of the requested subject
    identifier raise no [AuthorizationError]. *)
Lemma authorize_raises_incidental_after_check (self : Provider)
    (req : AuthorizationRequest) (user_id : string) (extra : extra_claims)
    (cid uri sub : string) (w w1 : W) :
  client_id req = Some cid → redirect_uri req = Some uri →
  _create_subject_identifier self user_id cid uri w = (Ok sub, w1) →
  _check_subject_identifier_matches_requested req sub = Ok tt →
  ∀ e w', authorize self req user_id extra w = (Err e, w') → incidental e.
Proof.
  intros Hcid Huri Hsub Hcheck e w'. unfold authorize. rewrite Hcid, Huri.
  do 2 (rewrite bind_lift; cbn [getitem]).
  rewrite (bind_Ok _ _ _ _ _ Hsub), bind_lift, Hcheck.
  intros Hraised.
  match type of Hraised with
  | ?m _ = _ => assert (raises_incidental m) as Hinc
  end.
  { pose proof incidental_resolve_extra.
    pose proof incidental_requested_claims.
    pose proof raises_incidental_create_signed_id_token.
    incidental_steps. }
  apply (Hinc _ _ _ Hraised).
Qed.

(** X7: when [authorize] raises [AuthorizationError], the subject identifier
    was derived and the check of the requested one refused it; the state is
    the one that the derivation left, so no authorization code and no access
    token were created.  The outcome is the same with any authorization state
    that derives subject identifiers alike, whatever its other operations
    do. *)
Theorem authorize_refused_issues_nothing (self : Provider)
    (req : AuthorizationRequest) (user_id : string) (extra : extra_claims)
    (w w' : W) (msg : string) :
  authorize self req user_id extra w = (Err (AuthorizationError msg), w') →
  (∃ cid uri sub,
     client_id req = Some cid ∧ redirect_uri req = Some uri
     ∧ _create_subject_identifier self user_id cid uri w = (Ok sub, w')
     ∧ _check_subject_identifier_matches_requested req sub
       = Err (AuthorizationError msg))
  ∧ ∀ other : AuthorizationState W,
      (∀ subject_type user sector v,
         @get_subject_identifier W other subject_type user sector v
         = @get_subject_identifier W authz subject_type user sector v) →
      @authorize _ _ W other _ self req user_id extra w
      = (Err (AuthorizationError msg), w').
Proof.
  intros Hraised.
  assert (Hsteps : ∃ cid uri sub,
    client_id req = Some cid ∧ redirect_uri req = Some uri
    ∧ _create_subject_identifier self user_id cid uri w = (Ok sub, w')
    ∧ _check_subject_identifier_matches_requested req sub
      = Err (AuthorizationError msg)).
  { destruct (client_id req) as [cid|] eqn:Hcid;
      [|by unfold authorize in Hraised; rewrite Hcid in Hraised].
    destruct (redirect_uri req) as [uri|] eqn:Huri;
      [|by unfold authorize in Hraised; rewrite Hcid, Huri in Hraised].
    destruct (_create_subject_identifier self user_id cid uri w)
      as [[sub|e] w1] eqn:Hsub.
    - destruct (_check_subject_identifier_matches_requested req sub)
        as [[]|e] eqn:Hcheck.
      + by destruct (authorize_raises_incidental_after_check self req user_id
                       extra cid uri sub w w1 Hcid Huri Hsub Hcheck _ _
                       Hraised).
      + unfold authorize in Hraised. rewrite Hcid, Huri in Hraised.
        do 2 (rewrite bind_lift in Hraised; cbn [getitem] in Hraised).
        rewrite (bind_Ok _ _ _ _ _ Hsub), bind_lift, Hcheck in Hraised.
        injection Hraised as -> ->. by exists cid, uri, sub.
    - unfold authorize in Hraised. rewrite Hcid, Huri in Hraised.
      do 2 (rewrite bind_lift in Hraised; cbn [getitem] in Hraised).
      rewrite (bind_Err _ _ _ _ _ Hsub) in Hraised.
      injection Hraised as -> ->.
      by destruct (raises_incidental_create_subject_identifier self user_id
                     cid uri _ _ _ Hsub). }
  split; [done|]. intros other Hother.
  destruct Hsteps as (cid & uri & sub & Hcid & Huri & Hsub & Hcheck).
  assert (Hsub' : @_create_subject_identifier _ W other self user_id cid uri w
                  = (Ok sub, w')).
  { rewrite <- Hsub. unfold _create_subject_identifier.
    destruct (subject_types_supported (configuration_information self))
      as [types|]; [|done].
    rewrite !bind_lift. cbn [getitem].
    destruct (first types); [|done].
    rewrite !bind_lift. destruct (getitem cid (clients self !! cid)); [|done].
    unfold call. by rewrite Hother. }
  unfold authorize. rewrite Hcid, Huri.
  do 2 (rewrite bind_lift; cbn [getitem]).
  by rewrite (bind_Ok _ _ _ _ _ Hsub'), bind_lift, Hcheck.
Qed.

(** X8: [authorize] does not validate the request.  For a client that is not
    registered it raises the [KeyError] of the look-up in [clients], and with
    an empty [subject_types_supported] it raises [IndexError], also for a
    registered client that has a [subject_type] of its own, since the default
    is evaluated first; in both cases the state is untouched. *)
Theorem authorize_unregistered_client (self : Provider)
    (req : AuthorizationRequest) (user_id : string) (extra : extra_claims)
    (cid uri : string) (w : W) :
  client_id req = Some cid → redirect_uri req = Some uri →
  (subject_types_supported (configuration_information self) = Some [] →
   authorize self req user_id extra w = (Err IndexError, w))
  ∧ (∀ t ts,
       subject_types_supported (configuration_information self)
         = Some (t :: ts) →
       clients self !! cid = None →
       authorize self req user_id extra w = (Err (KeyError cid), w)).
Proof.
  intros Hcid Huri. unfold authorize. rewrite Hcid, Huri.
  do 2 (rewrite bind_lift; cbn [getitem]). split.
  - intros Hnone.
    assert (Hsub : _create_subject_identifier self user_id cid uri w
                   = (Err IndexError, w)).
    { unfold _create_subject_identifier. rewrite Hnone.
      rewrite bind_lift. cbn [getitem]. by rewrite bind_lift. }
    by rewrite (bind_Err _ _ _ _ _ Hsub).
  - intros t ts Htypes Hnone.
    assert (Hsub : _create_subject_identifier self user_id cid uri w
                   = (Err (KeyError cid), w)).
    { unfold _create_subject_identifier. rewrite Htypes, Hnone.
      rewrite bind_lift. cbn [getitem]. rewrite bind_lift. cbn [first].
      by rewrite bind_lift. }
    by rewrite (bind_Err _ _ _ _ _ Hsub).
Qed.

End issuing.

(** ** Signing the ID Token *)

Section signing.
Context `{!Library, !Userinfo} {W : Type}.
Context {authz : AuthorizationState W} `{!Clock W}.

(** X9: for a registered client, with a signing algorithm and an issuer
    configured, a user claim or an extra claim named [iss], [sub], [aud],
    [iat] or [exp] makes the construction of the [IdToken] raise [TypeError],
    after the clock was read twice; so when an ID Token is signed, neither
    the user claims nor the extra claims carry one of them.  Without such a
    claim the ID Token is signed, two readings of the clock later, provided
    that the members fit the schema of the message and that the provider has
    a key for the algorithm; otherwise the exception of the library is
    raised. *)
Theorem create_signed_id_token_reserved_claims (self : Provider)
    (cid sub : string) (user_claims : gmap string json)
    (n code atv : option string) (extra : gmap string json) (w : W)
    (metadata : ClientMetadata) (alg : string) (algs : list string)
    (iss : string) :
  clients self !! cid = Some metadata →
  id_token_signing_alg_values_supported (configuration_information self)
    = Some (alg :: algs) →
  issuer (configuration_information self) = Some iss →
  let run :=
    _create_signed_id_token self cid sub user_claims n code atv extra w in
  let after := (time_time (time_time w).2).2 in
  let signing_alg := default alg (id_token_signed_response_alg metadata) in
  let args := id_token_args signing_alg user_claims code atv extra in
  (∀ k, k ∈ ["iss"; "sub"; "aud"; "iat"; "exp"] →
     is_Some (user_claims !! k) ∨ is_Some (extra !! k) →
     run = (Err (TypeError "got multiple values for keyword argument"),
            after))
  ∧ (∀ jws w', run = (Ok jws, w') →
       without_reserved_claims user_claims ∧ without_reserved_claims extra
       ∧ IdToken_error args = None
       ∧ to_jwt_error (jws_payload jws) [signing_key self] signing_alg = None
       ∧ w' = after)
  ∧ (without_reserved_claims user_claims → without_reserved_claims extra →
     (IdToken_error args = None →
      (∀ id_token,
         to_jwt_error id_token [signing_key self] signing_alg = None) →
      ∃ jws, run = (Ok jws, after))
     ∧ (∀ name, IdToken_error args = Some name →
          run = (Err (External name), after))
     ∧ (∀ name, IdToken_error args = None →
          (∀ id_token,
             to_jwt_error id_token [signing_key self] signing_alg
               = Some name) →
          run = (Err (External name), after))).
Proof.
  intros Hclient Halgs Hiss run after signing_alg args.
  assert (Hrun : run =
            (id_token ← lift (IdToken_new iss sub cid (time_time w).1
                                ((time_time (time_time w).2).1
                                   + id_token_lifetime self) args);
             lift (to_jwt
                     (if truthy_get n then
                        <["nonce" := JStr (default "" n)]> id_token
                      else id_token)
                     [signing_key self] signing_alg)) after).
  { unfold run, after, _create_signed_id_token.
    rewrite Hclient, Halgs, Hiss.
    do 4 (rewrite bind_lift; cbn [getitem first]).
    rewrite !bind_now.
    pose proof id_token_args_code as Hargs. cbv zeta in Hargs.
    by rewrite Hargs. }
  split; [|split].
  - intros k Hk Hsome. rewrite Hrun, bind_lift.
    unfold IdToken_new. rewrite bool_decide_eq_true_2; [done|].
    destruct (decide (Exists (λ k, is_Some (args !! k))
                        ["iss"; "sub"; "aud"; "iat"; "exp"]))
      as [|Hnot]; [done|].
    apply duplicate_keyword, id_token_args_reserved in Hnot as [Hu He].
    rewrite (Hu k Hk), (He k Hk) in Hsome.
    by destruct Hsome as [[? ?]|[? ?]].
  - intros jws w' Hsigned.
    destruct (create_signed_id_token_Ok _ _ _ _ _ _ _ _ _ _ _ Hsigned)
      as ((metadata' & alg' & algs' & Hclient' & Halgs' & Halg & _) & _ & _
          & _ & (iat & exp_now & w1 & Hiat & Hexp & _) & Hclean & Herror
          & Hsign & _).
    rewrite Hclient in Hclient'. injection Hclient' as <-.
    rewrite Halgs in Halgs'. injection Halgs' as <- <-.
    fold signing_alg in Halg. rewrite Halg in Hclean, Herror, Hsign.
    apply id_token_args_reserved in Hclean as [Hu He].
    repeat (split; [done|]). unfold after. rewrite Hiat. cbn [snd].
    by rewrite Hexp.
  - intros Hu He.
    assert (Hnew : ∀ iat exp,
              IdToken_new iss sub cid iat exp args
              = match IdToken_error args with
                | Some name => Err (External name)
                | None =>
                    Ok (alter (λ v, JArr [v]) "aud"
                          (filter stored
                             (<["iss" := JStr iss]> (<["sub" := JStr sub]>
                                (<["aud" := JStr cid]> (<["iat" := JNum iat]>
                                   (<["exp" := JNum exp]> args)))))))
                end).
    { intros iat exp. unfold IdToken_new.
      rewrite bool_decide_eq_false_2; [done|].
      apply duplicate_keyword, id_token_args_reserved. by split. }
    rewrite Hrun, bind_lift, Hnew. split; [|split].
    + intros -> Hsign. unfold lift, to_jwt. rewrite Hsign. by eexists.
    + by intros name ->.
    + intros name -> Hsign. unfold lift, to_jwt. by rewrite Hsign.
Qed.

(** X10: a signed ID Token is signed with the key of the provider and with
    the [id_token_signed_response_alg] of the client or else the first
    supported algorithm.  Unless a user claim or an extra claim replaces
    them, [c_hash] and [at_hash] are the left hashes of a non-empty
    authorization code and access token under [HS] followed by the last
    three characters of that algorithm; they are absent otherwise, and also
    when [left_hash] gives no hash for that algorithm, or an empty one, since
    the message leaves out a member without a value. *)
Theorem id_token_signature_and_hashes (self : Provider) (cid sub : string)
    (user_claims : gmap string json) (n code atv : option string)
    (extra : gmap string json) (w w' : W) (jws : JWS) :
  _create_signed_id_token self cid sub user_claims n code atv extra w
    = (Ok jws, w') →
  ∃ metadata alg algs,
    clients self !! cid = Some metadata
    ∧ id_token_signing_alg_values_supported (configuration_information self)
      = Some (alg :: algs)
    ∧ jws_alg jws = default alg (id_token_signed_response_alg metadata)
    ∧ jws_keys jws = [signing_key self]
    ∧ let hash_alg := "HS" +:+ last3 (jws_alg jws) in
      (extra !! "c_hash" = None → user_claims !! "c_hash" = None →
       jws_payload jws !! "c_hash" =
         if truthy_get code then
           match left_hash (default "" code) hash_alg with
           | Some h => if bool_decide (h = "") then None else Some (JStr h)
           | None => None
           end
         else None)
      ∧ (extra !! "at_hash" = None → user_claims !! "at_hash" = None →
         jws_payload jws !! "at_hash" =
           if truthy_get atv then
             match left_hash (default "" atv) hash_alg with
             | Some h => if bool_decide (h = "") then None else Some (JStr h)
             | None => None
             end
           else None).
Proof.
  intros Hrun.
  destruct (create_signed_id_token_Ok _ _ _ _ _ _ _ _ _ _ _ Hrun)
    as ((metadata & alg & algs & Hclient & Halgs & Halg & Hkeys) & _).
  destruct (create_signed_id_token_payload _ _ _ _ _ _ _ _ _ _ _ Hrun)
    as (_ & _ & _ & Hc & Ha & _).
  exists metadata, alg, algs. repeat (split; [done|]).
  split; intros He Hu; [apply Hc|apply Ha]; by apply lookup_union_None.
Qed.


End signing.

(** ** A completed exchange of an authorization code *)

Section exchange.
Context `{!Library, !Userinfo} {W : Type}.
Context {authz : AuthorizationState W} `{!Clock W}.

(** The calls of a completed exchange, in their order. *)
Lemma code_exchange_trace (self : Provider) (request : gmap string string)
    (extra : extra_claims) (w w' : W) (resp : gmap string member) :
  _do_code_exchange self request extra w = (Ok resp, w') →
  ∃ code uri original sub user_id access_token refresh given cid jws
    w1 w2 w3 w4 w5,
    AccessTokenRequest_verify request = Verified
    ∧ request !! "code" = Some code ∧ request !! "redirect_uri" = Some uri
    ∧ get_authorization_request_for_code code w = (inr original, w1)
    ∧ redirect_uri original = Some uri
    ∧ get_subject_identifier_for_code code w1 = (inr sub, w2)
    ∧ get_user_id_for_subject_identifier sub w2 = (inr user_id, w3)
    ∧ exchange_code_for_token code w3 = (inr access_token, w4)
    ∧ create_refresh_token (value access_token) w4 = (inr refresh, w5)
    ∧ resolve_extra_id_token_claims extra user_id original = Ok given
    ∧ client_id original = Some cid
    ∧ _create_signed_id_token self cid sub
        (get_claims_for user_id (requested_id_token_claims original))
        (nonce original) None (Some (value access_token)) given w5
      = (Ok jws, w')
    ∧ resp = <["id_token" := MJws jws]>
               (<["refresh_token" := MStr refresh]>
                  (_add_access_token_to_response ∅ access_token)).
Proof.
  unfold _do_code_exchange. intros Hrun. run_inv; [congruence|].
  same_lookups.
  match goal with
  | H : _get_requested_claims_in _ _ = Ok _ |- _ =>
      rewrite get_requested_claims_id_token in H; injection H as <-
  end.
  match goal with
  | H : bool_decide (_ ≠ _) = false |- _ =>
      apply bool_decide_eq_false in H; apply dec_stable in H; subst
  end.
  match goal with
  | H : match AccessTokenRequest_verify request with _ => _ end = Ok _ |- _ =>
      destruct (AccessTokenRequest_verify request) eqn:Hverify; try done
  end.
  do 15 eexists. repeat (split; [done || eassumption|]). done.
Qed.

(** X12: an exchange of an authorization code that returns has verified the
    token request and found the [redirect_uri] of the token request equal to
    the one of the authorization request stored with the code.  Its response
    has exactly the members [access_token], [token_type], [expires_in],
    [refresh_token] and [id_token]: the access token is the one the code was
    exchanged for, the refresh token was created for that access token, and
    the state is the one two readings of the clock after its creation. *)
Theorem code_exchange_returns (self : Provider)
    (request : gmap string string) (extra : extra_claims) (w w' : W)
    (resp : gmap string member) :
  _do_code_exchange self request extra w = (Ok resp, w') →
  AccessTokenRequest_verify request = Verified
  ∧ (∃ code uri original w1,
       request !! "code" = Some code ∧ request !! "redirect_uri" = Some uri
       ∧ get_authorization_request_for_code code w = (inr original, w1)
       ∧ redirect_uri original = Some uri
       ∧ ∃ access_token refresh w3 w4 w5,
           exchange_code_for_token code w3 = (inr access_token, w4)
           ∧ create_refresh_token (value access_token) w4 = (inr refresh, w5)
           ∧ resp !! "access_token" = Some (MStr (value access_token))
           ∧ resp !! "token_type" = Some (MStr (type access_token))
           ∧ resp !! "expires_in" = Some (MInt (expires_in access_token))
           ∧ resp !! "refresh_token" = Some (MStr refresh)
           ∧ w' = (time_time (time_time w5).2).2)
  ∧ (∃ jws, resp !! "id_token" = Some (MJws jws))
  ∧ dom resp = {[ "access_token"; "token_type"; "expires_in";
                  "refresh_token"; "id_token" ]}.
Proof.
  intros Hrun.
  destruct (code_exchange_trace _ _ _ _ _ _ Hrun)
    as (code & uri & original & sub & user_id & access_token & refresh & given
        & cid & jws & w1 & w2 & w3 & w4 & w5 & Hverify & Hcode & Huri
        & Horiginal & Houri & Hsub & Huser & Hexchange & Hrefresh & Hgiven
        & Hcid & Hsigned & ->).
  destruct (create_signed_id_token_Ok _ _ _ _ _ _ _ _ _ _ _ Hsigned)
    as (_ & _ & _ & _ & (iat & exp_now & wa & Hiat & Hexp & _) & _).
  unfold _add_access_token_to_response.
  split; [done|]. split; [|split].
  - exists code, uri, original, w1. repeat (split; [done|]).
    exists access_token, refresh, w3, w4, w5. repeat (split; [done|]).
    repeat (split; [by simplify_map_eq|]).
    rewrite Hiat. cbn [snd]. by rewrite Hexp.
  - exists jws. by simplify_map_eq.
  - rewrite !dom_insert_L, dom_empty_L. set_solver.
Qed.

(** X13: the ID Token of an exchange is about the subject identifier stored
    with the code; its user claims are the ones answered for
    [claims.id_token] of the original request (the claims of the scope are
    not added).  An extra claim wins over a user claim and a non-empty nonce
    of the original request over both: the payload has the winning claim as
    the message keeps it, that is, unless its value is [None] or the empty
    string.  Unless one of them replaces it, [at_hash] is the left hash of
    the new access token, absent when [left_hash] gives none for the
    algorithm; and the payload has no [c_hash] and no other claim that they
    do not give. *)
Theorem code_exchange_id_token_payload (self : Provider)
    (request : gmap string string) (extra : extra_claims) (w w' : W)
    (resp : gmap string member) (jws : JWS) :
  _do_code_exchange self request extra w = (Ok resp, w') →
  resp !! "id_token" = Some (MJws jws) →
  ∃ code original sub user_id access_token given w1 w2 w3 w4,
    request !! "code" = Some code
    ∧ get_authorization_request_for_code code w = (inr original, w1)
    ∧ get_subject_identifier_for_code code w1 = (inr sub, w2)
    ∧ get_user_id_for_subject_identifier sub w2 = (inr user_id, w3)
    ∧ exchange_code_for_token code w3 = (inr access_token, w4)
    ∧ resolve_extra_id_token_claims extra user_id original = Ok given
    ∧ let user_claims :=
        get_claims_for user_id (requested_id_token_claims original) in
      let p := jws_payload jws in
      let hash_alg := "HS" +:+ last3 (jws_alg jws) in
      p !! "sub" = (if bool_decide (sub = "") then None else Some (JStr sub))
      ∧ (truthy_get (nonce original) = true →
         p !! "nonce" = JStr <$> nonce original)
      ∧ (∀ k v, given !! k = Some v →
           k ≠ "nonce" ∨ truthy_get (nonce original) = false →
           p !! k = if bool_decide (v = JNull ∨ v = JStr "") then None
                    else Some v)
      ∧ (∀ k v, given !! k = None → user_claims !! k = Some v →
           k ≠ "nonce" ∨ truthy_get (nonce original) = false →
           p !! k = if bool_decide (v = JNull ∨ v = JStr "") then None
                    else Some v)
      ∧ (given !! "at_hash" = None → user_claims !! "at_hash" = None →
         p !! "at_hash" =
           if truthy_str (value access_token) then
             match left_hash (value access_token) hash_alg with
             | Some h => if bool_decide (h = "") then None else Some (JStr h)
             | None => None
             end
           else None)
      ∧ (∀ k, given !! k = None → user_claims !! k = None →
           k ∉ ["iss"; "sub"; "aud"; "iat"; "exp"; "nonce"; "at_hash"] →
           p !! k = None).
Proof.
  intros Hrun Hjws.
  destruct (code_exchange_trace _ _ _ _ _ _ Hrun)
    as (code & uri & original & sub & user_id & access_token & refresh & given
        & cid & jws' & w1 & w2 & w3 & w4 & w5 & Hverify & Hcode & Huri
        & Horiginal & Houri & Hsub & Huser & Hexchange & Hrefresh & Hgiven
        & Hcid & Hsigned & ->).
  rewrite lookup_insert_eq in Hjws. injection Hjws as ->.
  destruct (create_signed_id_token_payload _ _ _ _ _ _ _ _ _ _ _ Hsigned)
    as (Hpsub & Hnonce & Hpgiven & Hc & Ha & Hnone).
  exists code, original, sub, user_id, access_token, given, w1, w2, w3, w4.
  repeat (split; [done|]). cbv zeta.
  split; [|split; [|split]].
  - intros k v Hk Hfree. rewrite <- (stored_member_value k).
    apply Hpgiven; [|done]. by apply lookup_union_Some_l.
  - intros k v Hk Hu Hfree. rewrite <- (stored_member_value k).
    apply Hpgiven; [|done]. by rewrite lookup_union_r.
  - intros Hg Hu. by rewrite Ha by (by apply lookup_union_None).
  - intros k Hk Hu Hout.
    destruct (decide (k = "c_hash")) as [->|Hne].
    + by rewrite Hc by (by apply lookup_union_None).
    + apply Hnone; [by apply lookup_union_None| |];
        rewrite !elem_of_cons in Hout; rewrite ?elem_of_cons; tauto.
Qed.

(** X14: the exchange is not atomic.  When the signing of the ID Token
    raises, the exchange raises that exception in the state the signing left:
    the authorization state has exchanged the code and created the refresh
    token before. *)
Theorem code_exchange_signing_failure (self : Provider)
    (request : gmap string string) (extra : extra_claims)
    (code uri : string) (original : AuthorizationRequest)
    (sub user_id : string) (access_token : AccessToken) (refresh : string)
    (given : gmap string json) (cid : string) (e : exn)
    (w w1 w2 w3 w4 w5 w6 : W) :
  AccessTokenRequest_verify request = Verified →
  request !! "code" = Some code →
  request !! "redirect_uri" = Some uri →
  get_authorization_request_for_code code w = (inr original, w1) →
  redirect_uri original = Some uri →
  get_subject_identifier_for_code code w1 = (inr sub, w2) →
  get_user_id_for_subject_identifier sub w2 = (inr user_id, w3) →
  exchange_code_for_token code w3 = (inr access_token, w4) →
  create_refresh_token (value access_token) w4 = (inr refresh, w5) →
  resolve_extra_id_token_claims extra user_id original = Ok given →
  client_id original = Some cid →
  _create_signed_id_token self cid sub
    (get_claims_for user_id (requested_id_token_claims original))
    (nonce original) None (Some (value access_token)) given w5
  = (Err e, w6) →
  _do_code_exchange self request extra w = (Err e, w6).
Proof.
  intros Hverify Hcode Huri Horiginal Houri Hsub Huser Hexchange Hrefresh
    Hgiven Hcid Hsigned.
  unfold _do_code_exchange. rewrite Hverify, Hcode, Huri.
  do 2 (rewrite bind_lift; cbn [getitem]).
  rewrite bind_call, Horiginal, Houri.
  do 2 (rewrite bind_lift; cbn [getitem]).
  rewrite bool_decide_eq_false_2 by (by intros ?).
  rewrite bind_lift. cbn [getitem].
  rewrite bind_call, Hsub, bind_call, Huser.
  rewrite bind_lift. cbn [getitem].
  rewrite bind_call, Hexchange, bind_call, Hrefresh.
  rewrite bind_lift, Hgiven, bind_lift, get_requested_claims_id_token.
  rewrite bind_lift, Hcid. cbn [getitem].
  by rewrite (bind_Err _ _ _ _ _ Hsigned).
Qed.

End exchange.

(** ** The userinfo endpoint and expired tokens *)

Section userinfo_endpoint.
Context `{!Library, !Userinfo} {W : Type}.
Context {authz : AuthorizationState W} `{!Clock W}.

Lemma incidental_OpenIDSchema_new (sub : string)
    (user_claims : gmap string json) :
  incidental_result (OpenIDSchema_new sub user_claims).
Proof.
  unfold OpenIDSchema_new. case_bool_decide; [|done]. by intros e [= <-].
Qed.

(** X15: [handle_userinfo_request] raises [InvalidUserinfoRequest] exactly
    when the bearer token was extracted and its introspection is not active;
    the message is then "The access token has expired" and the state is the
    one the introspection left.  Every other exception it raises is
    incidental (a look-up, a repeated keyword, a collaborator), and a request
    without a bearer token raises the exception of the extraction with the
    state untouched. *)
Theorem userinfo_expired_token (self : Provider) (request : option string)
    (http_headers : option (gmap string string)) (w : W) :
  (∀ msg w',
     handle_userinfo_request self request http_headers w
       = (Err (InvalidUserinfoRequest msg), w')
     ↔ msg = "The access token has expired"
       ∧ ∃ bearer_token introspection,
           extract_bearer_token_from_http_request request http_headers
             = inr bearer_token
           ∧ introspect_access_token bearer_token w = (inr introspection, w')
           ∧ active introspection = false)
  ∧ (∀ e w',
       handle_userinfo_request self request http_headers w = (Err e, w') →
       (∃ msg, e = InvalidUserinfoRequest msg) ∨ incidental e)
  ∧ (∀ name,
       extract_bearer_token_from_http_request request http_headers = inl name →
       handle_userinfo_request self request http_headers w
         = (Err (External name), w)).
Proof.
  unfold handle_userinfo_request.
  destruct (extract_bearer_token_from_http_request request http_headers)
    as [name|bearer_token] eqn:Hbearer; rewrite bind_lift; cbn [answer].
  { split; [|split]; [|intros e w' [= <- _]; by right|by intros ? [= <-]].
    intros msg w'. split; [done|]. by intros (_ & ? & ? & [=] & _). }
  rewrite bind_call.
  destruct (introspect_access_token bearer_token w)
    as [[name|introspection] w1] eqn:Hintro.
  { split; [|split]; [|intros e w' [= <- _]; by right|done].
    intros msg w'. split; [done|].
    intros (_ & ? & ? & [= <-] & Hintro' & _). by rewrite Hintro in Hintro'. }
  destruct (active introspection) eqn:Hactive; cbn [negb].
  - match goal with
    | |- context [?m w1 = (Err _, _)] =>
        assert (raises_incidental m) as Hinc
    end.
    { pose proof incidental_requested_claims.
      pose proof incidental_OpenIDSchema_new.
      incidental_steps. }
    split; [|split]; [|intros e w' Hraised; right; by eapply Hinc|done].
    intros msg w'. split.
    + intros Hraised. by destruct (Hinc _ _ _ Hraised).
    + intros (_ & ? & intro & [= <-] & Hintro' & Hinactive).
      rewrite Hintro in Hintro'. injection Hintro' as <- _. congruence.
  - split; [|split]; [|intros e w' [= <- _]; left; by eexists|done].
    intros msg w'. split.
    + intros [= <- <-]. split; [done|]. by exists bearer_token, introspection.
    + intros (-> & ? & intro & [= <-] & Hintro' & _).
      rewrite Hintro in Hintro'. by injection Hintro' as _ ->.
Qed.

End userinfo_endpoint.

(** ** Forms of a requested subject identifier *)

Section requested_sub.
Context `{!Library}.

(** X16: the check of the requested subject identifier passes, whatever the
    derived one is, when the request has no [claims] parameter or when the
    values requested under [id_token] and [userinfo] are both absent or false
    ([None], the empty string, an empty object).  A requested value that is
    true and not a string, such as an object with a [value] member, is
    refused whatever the derived subject identifier is. *)
Theorem requested_sub_forms (req : AuthorizationRequest) (sub : string) :
  (claims req = None →
   _check_subject_identifier_matches_requested req sub = Ok tt)
  ∧ (∀ c, claims req = Some c →
       truthy (requested_id_token_sub c) = false →
       truthy (requested_userinfo_sub c) = false →
       _check_subject_identifier_matches_requested req sub = Ok tt)
  ∧ (∀ c, claims req = Some c →
       let requested :=
         py_or (requested_id_token_sub c) (requested_userinfo_sub c) in
       truthy requested = true → (∀ s, requested ≠ JStr s) →
       ∃ msg, _check_subject_identifier_matches_requested req sub
              = Err (AuthorizationError msg)).
Proof.
  split; [|split].
  - intros Hnone. unfold _check_subject_identifier_matches_requested.
    by rewrite Hnone.
  - intros c Hc Ha Hb.
    rewrite (check_subject_identifier_cases req c sub Hc). cbv zeta.
    unfold py_or. by rewrite Ha, Hb.
  - intros c Hc requested Htruthy Hform.
    apply (check_subject_identifier_raises req c sub Hc).
    + unfold requested, py_or in Htruthy.
      destruct (truthy (requested_id_token_sub c)); [done|].
      by rewrite Htruthy.
    + right. apply Hform.
Qed.

End requested_sub.

(** ** The token endpoint *)

Section token_requests_properties.
Context `{!Library, !Userinfo, !TokenLibrary} {W : Type}.
Context {authz : AuthorizationState W} `{!Clock W}.
Context {refresh : RefreshState W}.

Lemma raises_only_bind {A B} (P : exn → Prop) (m : M W A) (f : A → M W B) :
  raises_only P m → (∀ a, raises_only P (f a)) → raises_only P (m ≫= f).
Proof.
  intros Hm Hf w e w'. unfold mbind, M_bind.
  destruct (m w) as [[a|e1] w1] eqn:Hrun.
  - apply Hf.
  - intros [= <- <-]. by eapply Hm.
Qed.

Lemma raises_only_incidental {A} (m : M W A) :
  raises_incidental m → raises_only invalid_request_or_incidental m.
Proof.
  intros Hm w e w' Hraised. specialize (Hm w e w' Hraised). by destruct e.
Qed.

Lemma raises_only_verified (v : verified) :
  raises_only invalid_request_or_incidental
    (lift (match v with
           | Verified => Ok tt
           | MissingValue msg | MissingAttribute msg =>
               Err (InvalidTokenRequest msg "invalid_request")
           | VerifyRaised name => Err (External name)
           end) : M W unit).
Proof. intros w e w'. unfold lift. by destruct v; intros [= <- _]. Qed.

Lemma code_exchange_raises (self : Provider) (request : gmap string string)
    (extra : extra_claims) :
  raises_only invalid_request_or_incidental
    (_do_code_exchange self request extra).
Proof.
  unfold _do_code_exchange.
  apply raises_only_bind; [apply raises_only_verified|]. intros _.
  do 4 (apply raises_only_bind;
          [apply raises_only_incidental; incidental_steps|]; intros ?).
  case_bool_decide.
  - intros w e w'. unfold lift. by intros [= <- _].
  - apply raises_only_incidental.
    pose proof incidental_resolve_extra.
    pose proof incidental_requested_claims.
    pose proof raises_incidental_create_signed_id_token.
    incidental_steps.
Qed.

Lemma token_refresh_raises (self : Provider) (request : gmap string string) :
  raises_only invalid_request_or_incidental (_do_token_refresh self request).
Proof.
  unfold _do_token_refresh.
  apply raises_only_bind; [apply raises_only_verified|]. intros _.
  apply raises_only_incidental. incidental_steps.
Qed.

Lemma dict_snoc {A} (pairs : list (string * A)) (k : string) (v : A) :
  dict (pairs ++ [(k, v)]) = <[k := v]> (dict pairs).
Proof. unfold dict. by rewrite foldl_app. Qed.

Lemma dict_lookup {A} (pairs : list (string * A)) (k : string) :
  dict pairs !! k = last_value k pairs.
Proof.
  unfold last_value.
  induction pairs as [|[k' v] pairs IH] using rev_ind; [done|].
  rewrite dict_snoc, filter_app, fmap_app.
  destruct (decide (k' = k)) as [->|Hne].
  - rewrite lookup_insert_eq, filter_cons_True by done.
    rewrite filter_nil. change (snd <$> [(k, v)]) with [v].
    by rewrite last_snoc.
  - rewrite lookup_insert_ne, filter_cons_False by done.
    by rewrite filter_nil, app_nil_r.
Qed.

(** X17: [_verify_client_authentication] hands to the authenticator the
    dictionary of the pairs of the body, in which a key given several times
    has its last value, together with the [Authorization] header, [None]
    when no headers are given; it returns the dictionary as the authenticator
    leaves it, and raises what the authenticator raises. *)
Theorem verify_client_authentication_request (self : Provider)
    (request_body : string) (http_headers : option (gmap string string)) :
  ∃ token_request,
    (∀ k, token_request !! k = last_value k (parse_qsl request_body))
    ∧ _verify_client_authentication self request_body http_headers
      = answer (verify_client_authentication token_request (clients self)
                  (http_headers ≫= (.!! "Authorization"))).
Proof.
  exists (dict (parse_qsl request_body)). split; [apply dict_lookup|].
  unfold _verify_client_authentication.
  assert (default ∅ http_headers !! "Authorization"
          = http_headers ≫= (.!! "Authorization")) as ->
    by (by destruct http_headers).
  by destruct (verify_client_authentication _ _ _).
Qed.

(** X18: [handle_token_request] authenticates the client first: what the
    authentication raises is raised with the state untouched, whatever the
    grant type is.  The authenticated request is then handled by its
    [grant_type]: without one [InvalidTokenRequest] is raised, with
    [authorization_code] the code is exchanged, with [refresh_token] the
    token is refreshed, and any other value is refused with
    [unsupported_grant_type]; a refusal leaves the state untouched. *)
Theorem handle_token_request_dispatch (self : Provider) (request_body : string)
    (http_headers : option (gmap string string)) (extra : extra_claims)
    (w : W) :
  (∀ e, _verify_client_authentication self request_body http_headers = Err e →
     handle_token_request self request_body http_headers extra w = (Err e, w))
  ∧ (∀ token_request,
       _verify_client_authentication self request_body http_headers
         = Ok token_request →
       (token_request !! "grant_type" = None →
        handle_token_request self request_body http_headers extra w
        = (Err (InvalidTokenRequest "grant_type missing" "invalid_request"),
           w))
       ∧ (token_request !! "grant_type" = Some "authorization_code" →
          handle_token_request self request_body http_headers extra w
          = _do_code_exchange self token_request extra w)
       ∧ (token_request !! "grant_type" = Some "refresh_token" →
          handle_token_request self request_body http_headers extra w
          = _do_token_refresh self token_request w)
       ∧ (∀ grant_type,
            token_request !! "grant_type" = Some grant_type →
            grant_type ≠ "authorization_code" →
            grant_type ≠ "refresh_token" →
            handle_token_request self request_body http_headers extra w
            = (Err (InvalidTokenRequest
                      ("grant_type '" +:+ grant_type +:+ "' unknown")
                      "unsupported_grant_type"), w))).
Proof.
  unfold handle_token_request. split.
  - intros e ->. by rewrite bind_lift.
  - intros token_request ->. rewrite bind_lift.
    split; [by intros ->|]. split; [by intros ->|]. split; [by intros ->|].
    intros grant_type -> Hcode Hrefresh.
    by rewrite !bool_decide_eq_false_2.
Qed.

(** X19: an [InvalidTokenRequest] raised by [handle_token_request] comes after
    the client was authenticated, and its [oauth_error] is [invalid_request]
    or [unsupported_grant_type]; it is [unsupported_grant_type] exactly when
    the request has a [grant_type] other than [authorization_code] and
    [refresh_token], and then the state is untouched. *)
Theorem handle_token_request_errors (self : Provider) (request_body : string)
    (http_headers : option (gmap string string)) (extra : extra_claims)
    (w w' : W) (msg oauth_error : string) :
  handle_token_request self request_body http_headers extra w
    = (Err (InvalidTokenRequest msg oauth_error), w') →
  ∃ token_request,
    _verify_client_authentication self request_body http_headers
      = Ok token_request
    ∧ (oauth_error = "invalid_request"
       ∨ oauth_error = "unsupported_grant_type")
    ∧ (oauth_error = "unsupported_grant_type"
       ↔ ∃ grant_type,
           token_request !! "grant_type" = Some grant_type
           ∧ grant_type ≠ "authorization_code"
           ∧ grant_type ≠ "refresh_token")
    ∧ (oauth_error = "unsupported_grant_type" → w' = w).
Proof.
  unfold handle_token_request.
  destruct (_verify_client_authentication self request_body http_headers)
    as [token_request|e] eqn:Hauth; rewrite bind_lift.
  2: { intros [= -> _]. unfold _verify_client_authentication in Hauth.
       by destruct (verify_client_authentication _ _ _). }
  intros Hraised. exists token_request. split; [done|].
  destruct (token_request !! "grant_type") as [grant_type|] eqn:Hgrant.
  2: { injection Hraised as _ <- _. split; [by left|].
       split; [|done]. split; [done|by intros (? & ? & _)]. }
  case_bool_decide as Hcode.
  { apply code_exchange_raises in Hraised. simpl in Hraised. subst.
    split; [by left|]. split; [|done]. split; [done|].
    by intros (? & [= <-] & ? & _). }
  case_bool_decide as Hrefresh.
  { apply token_refresh_raises in Hraised. simpl in Hraised. subst.
    split; [by left|]. split; [|done]. split; [done|].
    by intros (? & [= <-] & _ & ?). }
  injection Hraised as _ <- <-. split; [by right|]. split; [|done].
  split; [|done]. intros _. by exists grant_type.
Qed.

(** X20: a token refresh that returns has verified the request and used its
    refresh token once, with the scope of the request.  The response carries
    the new access token with its type and expiry, a [refresh_token] exactly
    when the authorization state gave a new, non-empty one, no [id_token],
    and no other member. *)
Theorem token_refresh_returns (self : Provider)
    (request : gmap string string) (w w' : W) (resp : gmap string member) :
  _do_token_refresh self request w = (Ok resp, w') →
  RefreshAccessTokenRequest_verify request = Verified
  ∧ ∃ old access_token new,
      refresh_token (RefreshAccessTokenRequest_from_dict request) = Some old
      ∧ use_refresh_token old
          (refresh_scope (RefreshAccessTokenRequest_from_dict request)) w
        = (inr (access_token, new), w')
      ∧ resp !! "access_token" = Some (MStr (value access_token))
      ∧ resp !! "token_type" = Some (MStr (type access_token))
      ∧ resp !! "expires_in" = Some (MInt (expires_in access_token))
      ∧ resp !! "refresh_token"
        = (if truthy_get new then MStr <$> new else None)
      ∧ resp !! "id_token" = None
      ∧ ∀ k, is_Some (resp !! k) →
             k ∈ ["access_token"; "token_type"; "expires_in";
                  "refresh_token"].
Proof.
  unfold _do_token_refresh. intros Hrun. run_inv.
  match goal with
  | H : match RefreshAccessTokenRequest_verify request with _ => _ end = Ok _
    |- _ =>
      destruct (RefreshAccessTokenRequest_verify request) eqn:Hverify;
        try done
  end.
  split; [done|]. do 3 eexists. split; [eassumption|]. split; [eassumption|].
  unfold _add_access_token_to_response.
  match goal with
  | |- context [truthy_get ?new] => destruct new as [s|]; simpl
  end.
  - destruct (truthy_str s); repeat (split; [by simplify_map_eq|]).
    all: intros k Hk; rewrite ?lookup_insert_is_Some', lookup_empty in Hk.
    all: rewrite !elem_of_cons.
    all: destruct_or?; subst; auto 10; by destruct Hk.
  - repeat (split; [by simplify_map_eq|]).
    intros k Hk. rewrite ?lookup_insert_is_Some', lookup_empty in Hk.
    rewrite !elem_of_cons.
    destruct_or?; subst; auto 10; by destruct Hk.
Qed.

(** X21: a refresh request that fails the schema check is refused with
    [InvalidTokenRequest] and [invalid_request], in the state it came in.
    Every [InvalidTokenRequest] of a token refresh arises so: the refresh
    token was not used, as the outcome is the same whatever
    [use_refresh_token] does. *)
Theorem token_refresh_invalid_request (self : Provider)
    (request : gmap string string) (w : W) :
  (∀ msg,
     RefreshAccessTokenRequest_verify request = MissingValue msg
     ∨ RefreshAccessTokenRequest_verify request = MissingAttribute msg →
     _do_token_refresh self request w
     = (Err (InvalidTokenRequest msg "invalid_request"), w))
  ∧ (∀ msg oauth_error w',
       _do_token_refresh self request w
         = (Err (InvalidTokenRequest msg oauth_error), w') →
       oauth_error = "invalid_request" ∧ w' = w
       ∧ (RefreshAccessTokenRequest_verify request = MissingValue msg
          ∨ RefreshAccessTokenRequest_verify request = MissingAttribute msg)
       ∧ ∀ other : RefreshState W,
           @_do_token_refresh _ W other self request w
           = (Err (InvalidTokenRequest msg oauth_error), w)).
Proof.
  unfold _do_token_refresh. split.
  - intros msg [-> | ->]; by rewrite bind_lift.
  - intros msg oauth_error w'.
    destruct (RefreshAccessTokenRequest_verify request) eqn:Hverify;
      rewrite bind_lift.
    + intros Hraised. exfalso.
      match type of Hraised with
      | ?m _ = _ => assert (raises_incidental m) as Hinc
      end.
      { incidental_steps. }
      apply (Hinc _ _ _ Hraised).
    + intros [= <- <- <-]. split; [done|]. split; [done|].
      split; [by left|]. intros other. by rewrite bind_lift.
    + intros [= <- <- <-]. split; [done|]. split; [done|].
      split; [by right|]. intros other. by rewrite bind_lift.
    + done.
Qed.

End token_requests_properties.

(** * The demo provider at work *)

Import Demo.

(** Runs [t] and gives the error it raises as witness. *)
#[local] Ltac exists_error t :=
  let r := eval vm_compute in t in
  match r with
  | Err (Raise_InvalidAuthenticationRequest ?e) => exists e
  end.

(** C5 (evaluated on the code): for the request [response_type=code code]
    the response-type set is {code}, the request passes every validator of
    the demo provider, whose client registered the response type [code], and
    [should_fragment_encode] answers [True], fragment encoding: it compares
    the parsed list with [['code']], where the validator of the registered
    response types compares sets. *)
Theorem should_fragment_encode_repeated_code :
  response_type repeated_code_request = Some ["code"; "code"]
  ∧ (list_to_set ["code"; "code"] : gset string) = {[ "code" ]}
  ∧ parse_authentication_request provider repeated_code_body None
    = Ok repeated_code_request
  ∧ should_fragment_encode repeated_code_request = Ok true
  ∧ ∃ resp w',
      authorize provider repeated_code_request "alice" NoExtraClaims
        (store 100 0) = (Ok resp, w')
      ∧ is_Some (resp !! "code")
      ∧ resp !! "access_token" = None ∧ resp !! "id_token" = None.
Proof.
  split; [done|]. split; [vm_compute; reflexivity|].
  split; [vm_compute; reflexivity|]. split; [done|].
  pose (run := authorize provider repeated_code_request "alice" NoExtraClaims
                 (store 100 0)).
  exists (returned ∅ run), run.2. split; [vm_compute; reflexivity|].
  split; [eexists; vm_compute; reflexivity|]. split; vm_compute; reflexivity.
Qed.

(** C8 (evaluated on the code): the request [response_type=id_token
    id_token] with a [claims.userinfo] member has the response-type set
    {id_token}; the validator compares the parsed list with [['id_token']]
    and lets it pass, as do the other validators of the demo provider, and
    [authorize] then issues an ID Token only, no access token and no code. *)
Theorem userinfo_claims_repeated_id_token :
  response_type repeated_id_token_request = Some ["id_token"; "id_token"]
  ∧ (list_to_set ["id_token"; "id_token"] : gset string) = {[ "id_token" ]}
  ∧ contains_userinfo_claims repeated_id_token_request = true
  ∧ _userinfo_claims_only_specified_when_access_token_is_issued
      repeated_id_token_request = Ok tt
  ∧ run_validators (authentication_request_validators provider)
      repeated_id_token_request = Ok tt
  ∧ ∃ resp w',
      authorize provider repeated_id_token_request "alice" NoExtraClaims
        (store 100 0) = (Ok resp, w')
      ∧ is_Some (resp !! "id_token")
      ∧ resp !! "access_token" = None ∧ resp !! "code" = None.
Proof.
  split; [done|]. split; [vm_compute; reflexivity|]. split; [done|].
  split; [done|]. split; [vm_compute; reflexivity|].
  pose (run := authorize provider repeated_id_token_request "alice"
                 NoExtraClaims (store 100 0)).
  exists (returned ∅ run), run.2. split; [vm_compute; reflexivity|].
  split; [eexists; vm_compute; reflexivity|]. split; vm_compute; reflexivity.
Qed.

(** C3 (evaluated on the code): [to_error_url] redirects to a redirect URI
    that is registered for no client.  The URI [https://evil/cb] is
    registered for no client of the demo provider.  For the client
    [mallory], which is not registered, the validator of the client
    identifier raises its error with [oauth_error=unauthorized_client]; for
    the registered client [c1] with that redirect URI and a scope without
    [openid], the schema check raises its error with
    [oauth_error=invalid_request].  Both are raised before the redirect URI
    is checked, and [to_error_url] turns both into a redirect to
    [https://evil/cb].  The validator of the redirect URIs refuses both
    requests with an error without [oauth_error], for which no redirect is
    synthesized, but it is never reached. *)
Theorem to_error_url_unregistered_redirect :
  (∀ cid metadata, clients provider !! cid = Some metadata →
     "https://evil/cb" ∉ default [] (redirect_uris metadata))
  ∧ (∃ e,
       parse_authentication_request provider unknown_client_body None
       = Err (Raise_InvalidAuthenticationRequest e)
       ∧ request e = unknown_client_request
       ∧ clients provider !! "mallory" = None
       ∧ oauth_error e = Some "unauthorized_client"
       ∧ to_error_url e
         = Ok (Some "https://evil/cb?error_message=Unknown client_id 'mallory'&error=unauthorized_client"))
  ∧ (∃ e,
       parse_authentication_request provider unregistered_redirect_body None
       = Err (Raise_InvalidAuthenticationRequest e)
       ∧ request e = unregistered_redirect_request
       ∧ is_Some (clients provider !! "c1")
       ∧ oauth_error e = Some "invalid_request"
       ∧ to_error_url e
         = Ok (Some "https://evil/cb?error_message=openid not in scope&error=invalid_request"))
  ∧ (∀ req, req ∈ [unknown_client_request; unregistered_redirect_request] →
       redirect_uri req = Some "https://evil/cb"
       ∧ ∃ e, _redirect_uri_is_in_registered_redirect_uris provider req
              = Err (Raise_InvalidAuthenticationRequest e)
              ∧ oauth_error e = None
              ∧ to_error_url e = Ok None).
Proof.
  split; [|split; [|split]].
  - intros cid metadata. unfold provider, Provider_init. simpl.
    rewrite lookup_singleton_Some. intros [_ <-]. simpl.
    rewrite list_elem_of_singleton. done.
  - exists_error (parse_authentication_request provider unknown_client_body
                    None).
    repeat split; vm_compute; reflexivity.
  - exists_error (parse_authentication_request provider
                    unregistered_redirect_body None).
    split; [vm_compute; reflexivity|]. split; [reflexivity|].
    split; [eexists; vm_compute; reflexivity|].
    split; vm_compute; reflexivity.
  - intros req Hreq. rewrite !elem_of_cons, elem_of_nil in Hreq.
    destruct Hreq as [->|[->|[]]]; (split; [reflexivity|]).
    + exists_error (_redirect_uri_is_in_registered_redirect_uris provider
                      unknown_client_request).
      repeat split; vm_compute; reflexivity.
    + exists_error (_redirect_uri_is_in_registered_redirect_uris provider
                      unregistered_redirect_request).
      repeat split; vm_compute; reflexivity.
Qed.

(** The error of the schema check for a request with [redirect_uri] and
    without [response_type]: [to_error_url] raises [KeyError]. *)
Lemma to_error_url_requires_response_type_witness :
  ∃ e,
    _authorization_request_verify no_response_type_request
    = Err (Raise_InvalidAuthenticationRequest e)
    ∧ truthy_get (redirect_uri no_response_type_request) = true
    ∧ response_type no_response_type_request = None
    ∧ oauth_error e = Some "invalid_request"
    ∧ to_error_url e = Err (KeyError "response_type").
Proof.
  exists_error (_authorization_request_verify no_response_type_request).
  split; [by vm_compute|]. split; [done|]. split; [done|].
  match goal with
  | |- oauth_error ?e = _ ∧ _ =>
      apply (proj2 (proj2 (to_error_url_requires_response_type e))
               no_response_type_request)
  end; [by vm_compute|done|done].
Defined.

(** The request with the unsupported scope [writer] passes the first five
    validators and fails the sixth. *)
Lemma parse_authentication_request_pipeline_witness :
  AuthorizationRequest_deserialize unsupported_scope_body
  = inr unsupported_scope_request
  ∧ parse_authentication_request provider unsupported_scope_body None
    = Err (invalid_authentication_request
             "Request contains unsupported/unknown scopes: writer"
             unsupported_scope_request (Some "invalid_scope")).
Proof.
  assert (Hparsed : AuthorizationRequest_deserialize unsupported_scope_body
                    = inr unsupported_scope_request) by (by vm_compute).
  split; [done|].
  destruct (parse_authentication_request_pipeline provider _ None _ Hparsed)
    as (_ & Hfirst & _).
  apply (Hfirst
           [ _authorization_request_verify;
             _client_id_is_known provider;
             _redirect_uri_is_in_registered_redirect_uris provider;
             _response_type_is_in_registered_response_types provider;
             _userinfo_claims_only_specified_when_access_token_is_issued ]
           [] (_requested_scope_is_supported provider)).
  - done.
  - repeat constructor; by vm_compute.
  - by vm_compute.
Defined.

(** C4 (evaluated on the code): a requested subject identifier in the form
    of a claims request, [{"sub": {"value": X}}], is refused also when [X] is
    the derived subject identifier: the check compares the derived string
    with the whole entry, not with its [value].  For [alice] at the client
    [c1] the derived subject identifier is [pairwise-alice@rp]; the request
    that asks for it as [{"value": "pairwise-alice@rp"}] under [id_token]
    makes [authorize] raise [AuthorizationError], after the derivation and
    before anything is issued, while the request that asks for it as a bare
    string is answered. *)
Theorem authorize_requested_sub_value :
  (∀ sub : string,
     _check_subject_identifier_matches_requested
       (sub_request (Some (JObj {[ "value" := JStr sub ]})) None) sub
     = Err (AuthorizationError
              "Requested subject identifier '<json>' could not be matched"))
  ∧ _create_subject_identifier provider "alice" "c1" "https://rp/cb"
      (store 100 0)
    = (Ok "pairwise-alice@rp",
       store_subject "pairwise-alice@rp" "alice" (store 100 0))
  ∧ (claims requested_value_request ≫= id_token) ≫= (.!! "sub")
    = Some (JObj {[ "value" := JStr "pairwise-alice@rp" ]})
  ∧ authorize provider requested_value_request "alice" NoExtraClaims
      (store 100 0)
    = (Err (AuthorizationError
              "Requested subject identifier '<json>' could not be matched"),
       store_subject "pairwise-alice@rp" "alice" (store 100 0))
  ∧ ∃ resp w',
      authorize provider (sub_request (Some (JStr "pairwise-alice@rp")) None)
        "alice" NoExtraClaims (store 100 0) = (Ok resp, w')
      ∧ is_Some (resp !! "code").
Proof.
  split; [|split; [|split; [|split]]].
  - intros sub. vm_compute. reflexivity.
  - vm_compute; reflexivity.
  - vm_compute; reflexivity.
  - vm_compute; reflexivity.
  - pose (run := authorize provider
                   (sub_request (Some (JStr "pairwise-alice@rp")) None)
                   "alice" NoExtraClaims (store 100 0)).
    exists (returned ∅ run), run.2. split; [vm_compute; reflexivity|].
    eexists; vm_compute; reflexivity.
Qed.







(** The exchange of the code [code-i]: refused with another redirect URI,
    answered with the redirect URI of the authorization request. *)
Lemma code_exchange_redirect_uri_witness :
  (∃ msg,
     _do_code_exchange provider (token_request "https://rp/other")
       NoExtraClaims after_code_flow
     = (Err (InvalidTokenRequest msg "invalid_request"), after_code_flow))
  ∧ (∃ resp w',
       _do_code_exchange provider (token_request "https://rp/cb")
         NoExtraClaims after_code_flow = (Ok resp, w')
       ∧ resp !! "access_token" = Some (MStr "token-ii")
       ∧ resp !! "refresh_token" = Some (MStr "refresh-iii")
       ∧ is_Some (resp !! "id_token")).
Proof.
  assert (Hlookup : get_authorization_request_for_code "code-i" after_code_flow
                    = (inr code_request, after_code_flow))
    by (vm_compute; reflexivity).
  assert (Hverify : ∀ uri, AccessTokenRequest_verify (token_request uri)
                           = Verified) by (intros; vm_compute; reflexivity).
  assert (Hcode : ∀ uri, token_request uri !! "code" = Some "code-i")
    by (intros; vm_compute; reflexivity).
  assert (Huri : ∀ uri, token_request uri !! "redirect_uri" = Some uri)
    by (intros; vm_compute; reflexivity).
  split.
  - apply (proj1 (code_exchange_redirect_uri provider
                    (token_request "https://rp/other") NoExtraClaims "code-i"
                    "https://rp/other" "https://rp/cb" code_request
                    after_code_flow after_code_flow
                    (Hverify _) (Hcode _) (Huri _) Hlookup eq_refl)).
    done.
  - pose (sub := "pairwise-alice@rp").
    pose (w4 := consume_code "code-i" "token-ii" code_request sub
                  after_code_flow).
    pose (w5 := store_refresh_token "refresh-iii" "token-ii" w4).
    destruct (proj2 (code_exchange_redirect_uri provider
                       (token_request "https://rp/cb") NoExtraClaims "code-i"
                       "https://rp/cb" "https://rp/cb" code_request
                       after_code_flow after_code_flow
                       (Hverify _) (Hcode _) (Huri _) Hlookup eq_refl)
                eq_refl)
      as [_ Hreturns].
    apply (Hreturns sub "alice" (bearer "token-ii") "refresh-iii"
             after_code_flow after_code_flow w4 w5 "c1"
             {| redirect_uris := Some ["https://rp/cb"];
                response_types :=
                  Some [["code"]; ["id_token"]; ["code"; "id_token"; "token"]];
                subject_type := None;
                id_token_signed_response_alg := None |}
             "RS256" [] "https://op" ∅);
      try intros id_token; vm_compute; reflexivity.
Defined.

(** With another redirect URI the state after the exchange is the state
    before it: the code [code-i] is still there. *)
Lemma code_exchange_mismatch_leaves_state_witness :
  (∃ msg,
     _do_code_exchange provider (token_request "https://rp/other")
       NoExtraClaims after_code_flow
     = (Err (InvalidTokenRequest msg "invalid_request"), after_code_flow))
  ∧ is_Some (codes after_code_flow !! "code-i").
Proof.
  split; [|eexists; vm_compute; reflexivity].
  assert (Hlookup : get_authorization_request_for_code "code-i" after_code_flow
                    = (inr code_request, after_code_flow))
    by (vm_compute; reflexivity).
  assert (Hverify : AccessTokenRequest_verify (token_request "https://rp/other")
                    = Verified) by (vm_compute; reflexivity).
  assert (Hcode : token_request "https://rp/other" !! "code" = Some "code-i")
    by (vm_compute; reflexivity).
  assert (Huri : token_request "https://rp/other" !! "redirect_uri"
                 = Some "https://rp/other") by (vm_compute; reflexivity).
  assert (Hne : "https://rp/other" ≠ "https://rp/cb") by done.
  apply (proj1 (proj2 (code_exchange_mismatch_leaves_state provider
                         (token_request "https://rp/other") NoExtraClaims
                         "code-i" "https://rp/other" "https://rp/cb"
                         code_request after_code_flow after_code_flow
                         Hverify Hcode Huri Hlookup eq_refl Hne))).
  reflexivity.
Defined.

(** The userinfo request with the access token [token-i], issued for the
    scope [openid profile] and the [claims.userinfo] entry [email]. *)
Lemma userinfo_requested_claims_witness :
  dom implicit_requested_claims = ({[ "name" ]} : gset string) ∪ {[ "email" ]}
  ∧ implicit_requested_claims !! "email"
    = Some (JObj {[ "essential" := JBool true ]})
  ∧ handle_userinfo_request provider None (Some bearer_header)
      after_implicit_flow
    = (OpenIDSchema_new "pairwise-alice@rp"
         (get_claims_for "alice" implicit_requested_claims),
       after_implicit_flow)
  ∧ ∃ resp,
      OpenIDSchema_new "pairwise-alice@rp"
        (get_claims_for "alice" implicit_requested_claims)
      = Ok resp
      ∧ resp !! "sub" = Some (JStr "pairwise-alice@rp").
Proof.
  pose (introspection :=
          {| active := true; introspection_scope := Some "openid profile";
             introspection_sub := Some "pairwise-alice@rp" |}).
  assert (Hbearer : extract_bearer_token_from_http_request None
                      (Some bearer_header) = inr "token-i")
    by (vm_compute; reflexivity).
  assert (Hintro : introspect_access_token "token-i" after_implicit_flow
                   = (inr introspection, after_implicit_flow))
    by (vm_compute; reflexivity).
  assert (Huser : get_user_id_for_subject_identifier "pairwise-alice@rp"
                    after_implicit_flow = (inr "alice", after_implicit_flow))
    by (vm_compute; reflexivity).
  assert (Horiginal : get_authorization_request_for_access_token "token-i"
                        after_implicit_flow
                      = (inr implicit_request, after_implicit_flow))
    by (vm_compute; reflexivity).
  destruct (userinfo_requested_claims provider None (Some bearer_header)
              "token-i" introspection "openid profile" "pairwise-alice@rp"
              "alice" implicit_request
              after_implicit_flow after_implicit_flow after_implicit_flow
              after_implicit_flow
              Hbearer Hintro eq_refl eq_refl eq_refl Huser Horiginal)
    as (Hdom & Hkeep & _ & Hrun & Hsub).
  split; [exact Hdom|]. split; [by apply Hkeep|]. split; [exact Hrun|].
  eexists. split; [vm_compute; reflexivity|]. vm_compute; reflexivity.
Defined.

(** * The demo provider at work: requests, tokens and refresh *)

Import TokenDemo.

(** The request with the unsupported scope [writer] is refused with
    [invalid_scope]. *)
Lemma parse_authentication_request_errors_witness :
  AuthorizationRequest_deserialize unsupported_scope_body
  = inr unsupported_scope_request
  ∧ ∃ sc supported s,
      scope unsupported_scope_request = Some sc
      ∧ scopes_supported (configuration_information provider) = Some supported
      ∧ s ∈ sc ∧ s ∉ supported.
Proof.
  assert (Hparse : parse_authentication_request provider unsupported_scope_body
                     None
                   = Err (Raise_InvalidAuthenticationRequest
                            unsupported_scope_error))
    by (vm_compute; reflexivity).
  destruct (parse_authentication_request_errors provider _ None _ Hparse)
    as (Hd & _ & _ & _ & Hscope).
  split; [exact Hd|exact (Hscope eq_refl)].
Defined.

(** The response type [token id_token code token] is registered as
    [code id_token token]. *)
Lemma response_type_validator_compares_sets_witness :
  _response_type_is_in_registered_response_types provider
    permuted_hybrid_request = Ok tt.
Proof.
  apply (proj1 (response_type_validator_compares_sets provider
                  permuted_hybrid_request
                  ["token"; "id_token"; "code"; "token"] eq_refl)).
  exists "c1", c1,
    [["code"]; ["id_token"]; ["code"; "id_token"; "token"]],
    ["code"; "id_token"; "token"].
  split; [reflexivity|]. split; [vm_compute; reflexivity|].
  split; [reflexivity|]. split; [rewrite !elem_of_cons; auto|].
  intros x. rewrite !elem_of_cons, !elem_of_nil. tauto.
Defined.

(** The demo provider is built without [scopes_supported]: [openid] alone
    passes, [openid writer] is refused. *)
Lemma requested_scope_after_init_witness :
  _requested_scope_is_supported provider code_request = Ok tt
  ∧ ∃ e, _requested_scope_is_supported provider unsupported_scope_request
         = Err (Raise_InvalidAuthenticationRequest e)
         ∧ oauth_error e = Some "invalid_scope"
         ∧ request e = unsupported_scope_request.
Proof.
  split.
  - apply (proj2 (proj2 (requested_scope_after_init "key-1" configuration
                           {[ "c1" := c1 ]} None code_request ["openid"]
                           eq_refl)) eq_refl).
    intros s Hs. by apply list_elem_of_singleton in Hs.
  - apply (proj1 (proj2 (requested_scope_after_init "key-1" configuration
                           {[ "c1" := c1 ]} None unsupported_scope_request
                           ["openid"; "writer"] eq_refl))).
    by vm_compute.
Defined.

(** The hybrid flow answers with a code, an access token, an ID Token and
    the state of the request. *)
Lemma authorize_response_members_witness :
  ∃ resp w',
    authorize provider hybrid_request "alice" NoExtraClaims (store 100 0)
    = (Ok resp, w')
    ∧ is_Some (resp !! "code") ∧ is_Some (resp !! "access_token")
    ∧ is_Some (resp !! "id_token") ∧ resp !! "state" = Some (MStr "xyz").
Proof.
  pose (run := authorize provider hybrid_request "alice" NoExtraClaims
                 (store 100 0)).
  assert (Hrun : run = (Ok (returned ∅ run), run.2))
    by (vm_compute; reflexivity).
  destruct (authorize_response_members provider _ _ _ _ _ _ Hrun)
    as (rt & Hrt & Hcode & Htoken & _ & _ & Hid & Hstate & _).
  injection Hrt as <-.
  exists (returned ∅ run), run.2. split; [exact Hrun|].
  split; [apply Hcode; rewrite !elem_of_cons; auto|].
  split; [apply Htoken; rewrite !elem_of_cons; auto|].
  split; [apply Hid; rewrite !elem_of_cons; auto|exact Hstate].
Defined.

(** With [response_type=id_token] and the scope [profile], the name of the
    user is in the ID Token; with an extra claim [name] that is the empty
    string, the extra claim wins and the message leaves it out. *)
Lemma authorize_id_token_payload_witness :
  (∃ resp w' jws,
     authorize provider id_token_request "alice" NoExtraClaims (store 100 0)
     = (Ok resp, w')
     ∧ resp !! "id_token" = Some (MJws jws)
     ∧ jws_payload jws !! "name" = Some (JStr "Alice"))
  ∧ (∃ resp w' jws,
       authorize provider id_token_request "alice"
         (ExtraClaimsMap {[ "name" := JStr "" ]}) (store 100 0)
       = (Ok resp, w')
       ∧ resp !! "id_token" = Some (MJws jws)
       ∧ jws_payload jws !! "name" = None).
Proof.
  split.
  - pose (run := authorize provider id_token_request "alice" NoExtraClaims
                   (store 100 0)).
    assert (Hrun : run = (Ok (returned ∅ run), run.2))
      by (vm_compute; reflexivity).
    assert (Htok : returned ∅ run !! "id_token"
                   = Some (MJws (id_token_of (returned ∅ run))))
      by (vm_compute; reflexivity).
    destruct (authorize_id_token_payload provider _ _ _ _ _ _ _ Hrun Htok)
      as (cid & uri & sub & w1 & rt & given & _ & _ & _ & Hrt & Hgiven & Hp).
    injection Hrt as <-. injection Hgiven as <-.
    destruct Hp as (_ & _ & _ & Huser & _).
    exists (returned ∅ run), run.2, (id_token_of (returned ∅ run)).
    split; [exact Hrun|]. split; [exact Htok|].
    rewrite (Huser "name" (JStr "Alice"));
      [reflexivity|reflexivity|vm_compute; reflexivity|by left].
  - pose (run := authorize provider id_token_request "alice"
                   (ExtraClaimsMap {[ "name" := JStr "" ]}) (store 100 0)).
    assert (Hrun : run = (Ok (returned ∅ run), run.2))
      by (vm_compute; reflexivity).
    assert (Htok : returned ∅ run !! "id_token"
                   = Some (MJws (id_token_of (returned ∅ run))))
      by (vm_compute; reflexivity).
    destruct (authorize_id_token_payload provider _ _ _ _ _ _ _ Hrun Htok)
      as (cid & uri & sub & w1 & rt & given & _ & _ & _ & Hrt & Hgiven & Hp).
    injection Hrt as <-. injection Hgiven as <-.
    destruct Hp as (_ & _ & Hextra & _).
    exists (returned ∅ run), run.2, (id_token_of (returned ∅ run)).
    split; [exact Hrun|]. split; [exact Htok|].
    rewrite (Hextra "name" (JStr ""));
      [reflexivity|apply lookup_singleton_eq|by left].
Defined.

(** The request that asks for two subject identifiers is refused after the
    subject identifier was derived: no code is stored. *)
Lemma authorize_refused_issues_nothing_witness :
  (∃ sub, _create_subject_identifier provider "alice" "c1" "https://rp/cb"
            (store 100 0) = (Ok sub, after_subject))
  ∧ codes after_subject = ∅ ∧ access_tokens after_subject = ∅.
Proof.
  assert (Hraised : authorize provider conflicting_sub_request "alice"
                      NoExtraClaims (store 100 0)
                    = (Err (AuthorizationError
                              "Requested different subject identifier for IDToken and userinfo: pairwise-alice@rp != other"),
                       after_subject))
    by (vm_compute; reflexivity).
  destruct (proj1 (authorize_refused_issues_nothing provider _ _ _ _ _ _
                     Hraised))
    as (cid & uri & sub & Hcid & Huri & Hsub & _).
  injection Hcid as <-. injection Huri as <-.
  split; [by exists sub|]. split; reflexivity.
Defined.

(** [authorize] for the client [mallory], which is not registered. *)
Lemma authorize_unregistered_client_witness :
  authorize provider unknown_client_request "alice" NoExtraClaims (store 100 0)
  = (Err (KeyError "mallory"), store 100 0).
Proof.
  apply (proj2 (authorize_unregistered_client provider unknown_client_request
                  "alice" NoExtraClaims "mallory" "https://evil/cb"
                  (store 100 0) eq_refl eq_refl) "pairwise" []).
  - reflexivity.
  - vm_compute; reflexivity.
Defined.

(** User claims that carry [sub] raise [TypeError]; without user claims the
    ID Token is signed; a client that asks for [ES256], for which the demo
    provider has no key, gets the exception of the signing, and a string as
    [auth_time] the one of the message. *)
Lemma create_signed_id_token_reserved_claims_witness :
  _create_signed_id_token provider "c1" "pairwise-alice@rp"
    {[ "sub" := JStr "forged" ]} None None None ∅ (store 100 1)
  = (Err (TypeError "got multiple values for keyword argument"),
     advance (advance (store 100 1)))
  ∧ (∃ jws,
       _create_signed_id_token provider "c1" "pairwise-alice@rp" ∅ None None
         None ∅ (store 100 1)
       = (Ok jws, advance (advance (store 100 1))))
  ∧ _create_signed_id_token (provider_of "ES256") "c1" "pairwise-alice@rp" ∅
      None None None ∅ (store 100 1)
    = (Err (External "NoSuitableSigningKeys"),
       advance (advance (store 100 1)))
  ∧ _create_signed_id_token provider "c1" "pairwise-alice@rp" ∅ None None None
      {[ "auth_time" := JStr "yesterday" ]} (store 100 1)
    = (Err (External "ValueError"), advance (advance (store 100 1))).
Proof.
  assert (Hclean : ∀ m : gmap string json,
            m = ∅ ∨ m = {[ "auth_time" := JStr "yesterday" ]} →
            without_reserved_claims m).
  { intros m Hm k Hk. rewrite !elem_of_cons, elem_of_nil in Hk.
    destruct Hm as [-> | ->]; [apply lookup_empty|].
    apply lookup_singleton_ne. destruct_or?; by subst. }
  split; [|split; [|split]].
  - apply (proj1 (create_signed_id_token_reserved_claims provider "c1"
                    "pairwise-alice@rp" {[ "sub" := JStr "forged" ]} None None
                    None ∅ (store 100 1) c1 "RS256" [] "https://op"
                    ltac:(vm_compute; reflexivity) eq_refl eq_refl) "sub").
    + rewrite !elem_of_cons. auto.
    + left. eexists. apply lookup_singleton_eq.
  - destruct (proj2 (proj2 (create_signed_id_token_reserved_claims provider
                              "c1" "pairwise-alice@rp" ∅ None None None ∅
                              (store 100 1) c1 "RS256" [] "https://op"
                              ltac:(vm_compute; reflexivity) eq_refl eq_refl))
                (Hclean _ (or_introl eq_refl)) (Hclean _ (or_introl eq_refl)))
      as (Hsigned & _ & _).
    apply Hsigned; [|intros id_token]; vm_compute; reflexivity.
  - destruct (proj2 (proj2 (create_signed_id_token_reserved_claims
                              (provider_of "ES256") "c1" "pairwise-alice@rp" ∅
                              None None None ∅ (store 100 1)
                              {| redirect_uris := Some ["https://rp/cb"];
                                 response_types :=
                                   Some [["code"]; ["id_token"];
                                         ["code"; "id_token"; "token"]];
                                 subject_type := None;
                                 id_token_signed_response_alg :=
                                   Some "ES256" |}
                              "RS256" [] "https://op"
                              ltac:(vm_compute; reflexivity) eq_refl eq_refl))
                (Hclean _ (or_introl eq_refl)) (Hclean _ (or_introl eq_refl)))
      as (_ & _ & Hkey).
    apply Hkey; [|intros id_token]; vm_compute; reflexivity.
  - destruct (proj2 (proj2 (create_signed_id_token_reserved_claims provider
                              "c1" "pairwise-alice@rp" ∅ None None None
                              {[ "auth_time" := JStr "yesterday" ]}
                              (store 100 1) c1 "RS256" [] "https://op"
                              ltac:(vm_compute; reflexivity) eq_refl eq_refl))
                (Hclean _ (or_introl eq_refl)) (Hclean _ (or_intror eq_refl)))
      as (_ & Hschema & _).
    apply Hschema. vm_compute; reflexivity.
Defined.

(** The ID Token issued with the code [code-i] is signed with [RS256] and
    carries the [HS256] hash of the code. *)
Lemma id_token_signature_and_hashes_witness :
  ∃ jws w',
    _create_signed_id_token provider "c1" "pairwise-alice@rp" ∅ None
      (Some "code-i") None ∅ (store 100 0) = (Ok jws, w')
    ∧ jws_alg jws = "RS256" ∧ jws_keys jws = ["key-1"]
    ∧ jws_payload jws !! "c_hash" = Some (JStr "HS256(code-i)")
    ∧ jws_payload jws !! "at_hash" = None.
Proof.
  pose (run := _create_signed_id_token provider "c1" "pairwise-alice@rp" ∅
                 None (Some "code-i") None ∅ (store 100 0)).
  pose (jws := match run.1 with
               | Ok j => j
               | Err _ => {| jws_payload := ∅; jws_keys := []; jws_alg := "" |}
               end).
  assert (Hrun : run = (Ok jws, run.2)) by (vm_compute; reflexivity).
  unfold run in Hrun at 1.
  destruct (id_token_signature_and_hashes provider _ _ _ _ _ _ _ _ _ _ Hrun)
    as (metadata & alg & algs & Hclient & Halgs & Halg & Hkeys & Hc & Ha).
  assert (metadata = c1) as ->
    by (vm_compute in Hclient; by injection Hclient as <-).
  injection Halgs as <- <-.
  exists jws, run.2. split; [exact Hrun|]. split; [exact Halg|].
  split; [exact Hkeys|]. split.
  - rewrite (Hc eq_refl eq_refl), Halg. reflexivity.
  - exact (Ha eq_refl eq_refl).
Defined.

(** The exchange of the code [code-i] answers with the five members of a
    token response. *)
Lemma code_exchange_returns_witness :
  ∃ resp w',
    _do_code_exchange provider (token_request "https://rp/cb") NoExtraClaims
      after_code_flow = (Ok resp, w')
    ∧ AccessTokenRequest_verify (token_request "https://rp/cb") = Verified
    ∧ dom resp = {[ "access_token"; "token_type"; "expires_in";
                    "refresh_token"; "id_token" ]}.
Proof.
  pose (run := _do_code_exchange provider (token_request "https://rp/cb")
                 NoExtraClaims after_code_flow).
  assert (Hrun : run = (Ok (returned ∅ run), run.2))
    by (vm_compute; reflexivity).
  destruct (code_exchange_returns provider _ _ _ _ _ Hrun)
    as (Hverify & _ & _ & Hdom).
  exists (returned ∅ run), run.2. split; [exact Hrun|].
  split; [exact Hverify|exact Hdom].
Defined.

(** The ID Token of that exchange is about the subject identifier stored
    with the code. *)
Lemma code_exchange_id_token_payload_witness :
  ∃ resp w' jws,
    _do_code_exchange provider (token_request "https://rp/cb") NoExtraClaims
      after_code_flow = (Ok resp, w')
    ∧ resp !! "id_token" = Some (MJws jws)
    ∧ jws_payload jws !! "sub" = Some (JStr "pairwise-alice@rp").
Proof.
  pose (run := _do_code_exchange provider (token_request "https://rp/cb")
                 NoExtraClaims after_code_flow).
  assert (Hrun : run = (Ok (returned ∅ run), run.2))
    by (vm_compute; reflexivity).
  assert (Htok : returned ∅ run !! "id_token"
                 = Some (MJws (id_token_of (returned ∅ run))))
    by (vm_compute; reflexivity).
  destruct (code_exchange_id_token_payload provider _ _ _ _ _ _ Hrun Htok)
    as (code & original & sub & user_id & access_token & given & w1 & w2 & w3
        & w4 & Hcode & Horiginal & Hsub & _ & _ & _ & Hpsub & _).
  assert (code = "code-i") as ->
    by (vm_compute in Hcode; by injection Hcode as <-).
  assert (w1 = after_code_flow) as ->
    by (vm_compute in Horiginal; by injection Horiginal as _ <-).
  assert (sub = "pairwise-alice@rp") as ->
    by (vm_compute in Hsub; by injection Hsub as <- _).
  exists (returned ∅ run), run.2, (id_token_of (returned ∅ run)).
  split; [exact Hrun|]. split; [exact Htok|exact Hpsub].
Defined.

(** Extra claims that carry [aud]: the exchange raises [TypeError], and the
    code [code-i] is gone. *)
Lemma code_exchange_signing_failure_witness :
  ∃ w',
    _do_code_exchange provider (token_request "https://rp/cb")
      reserved_extra_claims after_code_flow
    = (Err (TypeError "got multiple values for keyword argument"), w')
    ∧ codes w' !! "code-i" = None
    ∧ is_Some (codes after_code_flow !! "code-i").
Proof.
  pose (w4 := consume_code "code-i" "token-ii" code_request
                "pairwise-alice@rp" after_code_flow).
  pose (w5 := store_refresh_token "refresh-iii" "token-ii" w4).
  exists (advance (advance w5)). split.
  - apply (code_exchange_signing_failure provider
             (token_request "https://rp/cb") reserved_extra_claims "code-i"
             "https://rp/cb" code_request "pairwise-alice@rp" "alice"
             (bearer "token-ii") "refresh-iii" {[ "aud" := JStr "other" ]}
             "c1" _ after_code_flow after_code_flow after_code_flow
             after_code_flow w4 w5);
      vm_compute; reflexivity.
  - split; [vm_compute; reflexivity|eexists; vm_compute; reflexivity].
Defined.

(** A body with [grant_type] given twice: the later value, [password],
    decides, and the request is refused with [unsupported_grant_type]. *)
Lemma handle_token_request_errors_witness :
  last_value "grant_type" (parse_qsl password_body) = Some "password"
  ∧ ∃ token_request grant_type,
      _verify_client_authentication provider password_body None
      = Ok token_request
      ∧ token_request !! "grant_type" = Some grant_type
      ∧ grant_type ≠ "authorization_code" ∧ grant_type ≠ "refresh_token".
Proof.
  split; [vm_compute; reflexivity|].
  assert (Hraised : handle_token_request provider password_body None
                      NoExtraClaims (store 100 0)
                    = (Err (InvalidTokenRequest "grant_type 'password' unknown"
                              "unsupported_grant_type"), store 100 0))
    by (vm_compute; reflexivity).
  destruct (handle_token_request_errors provider _ _ _ _ _ _ _ Hraised)
    as (token_request & Hauth & _ & Hiff & _).
  destruct (proj1 Hiff eq_refl) as (grant_type & Hgrant & Hne).
  by exists token_request, grant_type.
Defined.

(** The refresh token [refresh-iii] gives the access token [token-iiii]; no
    refresh token and no ID Token come with it. *)
Lemma token_refresh_returns_witness :
  ∃ resp w',
    _do_token_refresh provider refresh_request after_code_exchange
    = (Ok resp, w')
    ∧ resp !! "access_token" = Some (MStr "token-iiii")
    ∧ resp !! "refresh_token" = None ∧ resp !! "id_token" = None.
Proof.
  pose (run := _do_token_refresh provider refresh_request after_code_exchange).
  assert (Hrun : run = (Ok (returned ∅ run), run.2))
    by (vm_compute; reflexivity).
  unfold run in Hrun at 1.
  destruct (token_refresh_returns provider _ _ _ _ Hrun)
    as (_ & _ & _ & _ & _ & _ & _ & _ & _ & _ & Hid & _).
  exists (returned ∅ run), run.2. split; [exact Hrun|].
  split; [vm_compute; reflexivity|]. split; [vm_compute; reflexivity|].
  exact Hid.
Defined.
